(** * A shallow embedding of the metric state machines of simplerelic

    The Go package keeps three metrics ([ReqPerEndpoint],
    [ErrorRatePerEndpoint], [ResponseTimePerEndpoint]) behind the
    [AppMetric] interface (Update / ValueMap / Clear), and a [Reporter]
    that periodically calls [ValueMap] on every metric and posts the
    result to NewRelic.

    Modelling conventions:
    - a Go [map[string]int] is a [gmap string Z]; reading an absent key
      yields the zero value ([map_get]);
    - [float32] values are idealised as rationals [Q], except in the
      request-count export, whose integer float32 sums are rounded as
      float32 rounds them ([f32_round]);
    - the request parameter bag [map[string]interface{}] is a
      [gmap string value], and a failed type assertion is a panic;
    - Go maps are reference values.  [ReqPerEndpoint] replaces its live
      map with a fresh one after each snapshot, so the snapshotted map is
      never written again and value semantics are exact there.  The
      error-rate metric never allocates a new map after construction, so
      its snapshots share the live maps; it is modelled with an explicit
      store of maps addressed by locations;
    - the [endpoints] field of [MetricBase] is never assigned, so the loops
      over it in the constructors and in [init] do nothing. *)

From Stdlib Require Import ZArith QArith Qfield String List Lia.
From stdpp Require Import base gmap strings list fin_maps.

Import ListNotations.
Open Scope Z_scope.

(** ** Values of the parameter bag and Go outcomes *)

(** The dynamic values stored in the request parameter bag: the endpoint
    name (a string), the status code (an int) and the request start time
    (a [time.Time], here nanoseconds). *)
Inductive value :=
  | VString (s : string)
  | VInt (z : Z)
  | VTime (t : Z).

Abbreviation params := (gmap string value).

(** How a Go call ends: it returns (a new state and a result), it panics
    (leaving a state behind, e.g. with a mutex still held), or it blocks
    forever on a mutex nobody will release. *)
Inductive go_result (S A : Type) :=
  | Ret (s : S) (a : A)
  | Panic (s : S)
  | Deadlock.
Arguments Ret {S A} s a.
Arguments Panic {S A} s.
Arguments Deadlock {S A}.

(** The error value returned by [Update]: [None] is Go's [nil]. *)
Abbreviation error := (option string).

(** Reading a Go [map[string]int]: an absent key reads as 0. *)
Definition map_get (m : gmap string Z) (k : string) : Z := default 0 (m !! k).

(** [m[k]++] *)
Definition map_incr (m : gmap string Z) (k : string) : gmap string Z :=
  <[k := map_get m k + 1]> m.

(** [float32(n)], idealised. *)
Definition float32_of_int (n : Z) : Q := inject_Z n.

(** [float32(n)] for an integer [n], as the integer it denotes: [n]
    rounded to 24 significant bits, ties to even (IEEE-754 binary32
    round-to-nearest; Go's [int] range lies far below the float32
    overflow threshold).  The float32 sum of two integer-valued float32
    numbers [a] and [b] is [f32_round (a + b)]. *)
Definition f32_round (n : Z) : Z :=
  let a := Z.abs n in
  if a <? 2 ^ 24 then n
  else
    let e := Z.log2 a - 23 in
    let q := Z.shiftr a e in
    let r := a - Z.shiftl q e in
    let half := Z.shiftl 1 (e - 1) in
    let q' := if (half <? r) || ((r =? half) && Z.odd q) then q + 1 else q in
    Z.sgn n * Z.shiftl q' e.

(** ** MetricBase *)

Definition unknownEndpoint : string := "other".

Record MetricBase := {
  namePrefix : string;
  namePrefixOverall : string;
  metricUnit : string
}.

(** [MetricBase.endpointName]: the ["endpointName"] entry of the bag, or
    ["other"] when absent; [None] is the panic of the failed
    [endpointName.(string)] type assertion. *)
Definition endpointName (p : params) : option string :=
  match p !! "endpointName" with
  | None => Some unknownEndpoint
  | Some (VString s) => Some s
  | Some _ => None
  end.

(** Per-endpoint and overall metric names. *)
Definition metricName (b : MetricBase) (ep : string) : string :=
  namePrefix b +:+ ep +:+ metricUnit b.

Definition overallName (b : MetricBase) : string :=
  namePrefixOverall b +:+ metricUnit b.

(** ** Requests per endpoint *)
Module ReqPerEndpoint.

Record t := {
  numReq : gmap string Z;
  snapshots : list (gmap string Z)
}.

Definition base : MetricBase := {|
  namePrefix := "Component/ReqPerEndpoint/";
  namePrefixOverall := "Component/Req/overall";
  metricUnit := "[requests]" |}.

(** [NewReqPerEndpoint] *)
Definition New : t := {|
  numReq := <[unknownEndpoint := 0]> ∅;
  snapshots := [] |}.

(** [ReqPerEndpoint.Update]: never returns an error. *)
Definition Update (p : params) (m : t) : go_result t error :=
  match endpointName p with
  | None => Panic m
  | Some ep => Ret {| numReq := map_incr (numReq m) ep; snapshots := snapshots m |} None
  end.

(** [doSnapshot]: append the live map to the ledger, start a fresh one. *)
Definition doSnapshot (m : t) : t := {|
  numReq := ∅;
  snapshots := snapshots m ++ [numReq m] |}.

(** Body of [for endpoint, value := range snapshot.numReq]: the
    accumulator is [(reqCount, numReqAllEndpoints)].  Every float32 held
    in [reqCount] is integer-valued and kept as that integer;
    [reqCount[metricName] += float32(value)] is a float32 addition, so
    both the conversion and the sum are rounded. *)
Definition sum_entry (ep : string) (v : Z) (acc : gmap string Z * Z)
    : gmap string Z * Z :=
  let name := metricName base ep in
  (<[name := f32_round (default 0 (acc.1 !! name) + f32_round v)]> acc.1, acc.2 + v).

Definition sum_snapshot (acc : gmap string Z * Z) (s : gmap string Z)
    : gmap string Z * Z :=
  map_fold sum_entry acc s.

(** The export mapping built from a ledger; the last line is
    [reqCount[...] = float32(numReqAllEndpoints)]. *)
Definition export (l : list (gmap string Z)) : gmap string Q :=
  let '(reqCount, numReqAllEndpoints) := fold_left sum_snapshot l (∅, 0) in
  <[overallName base := inject_Z (f32_round numReqAllEndpoints)]> (inject_Z <$> reqCount).

(** [ReqPerEndpoint.ValueMap]: snapshot, sum the whole ledger, and reset
    the live map once more. *)
Definition ValueMap (m : t) : gmap string Q * t :=
  let m1 := doSnapshot m in
  (export (snapshots m1), {| numReq := ∅; snapshots := snapshots m1 |}).

(** [ReqPerEndpoint.Clear] *)
Definition Clear (m : t) : t := {| numReq := numReq m; snapshots := [] |}.

End ReqPerEndpoint.

(** ** Error rate per endpoint *)
Module ErrorRatePerEndpoint.

(** Addresses of Go maps in the store. *)
Abbreviation loc := positive.

(** [numReq] and [errorCount] hold the addresses of the live maps; each
    snapshot holds the addresses it was given by [doSnapshot]; [locked]
    is the state of the metric's mutex. *)
Record t := {
  heap : gmap loc (gmap string Z);
  numReq : loc;
  errorCount : loc;
  snapshots : list (loc * loc);
  locked : bool
}.

Definition base : MetricBase := {|
  namePrefix := "Component/ErrorRatePerEndpoint/";
  namePrefixOverall := "Component/ErrorRate/overall";
  metricUnit := "[percent]" |}.

Definition load (h : gmap loc (gmap string Z)) (l : loc) : gmap string Z :=
  default ∅ (h !! l).

Definition set_heap (m : t) (h : gmap loc (gmap string Z)) : t := {|
  heap := h; numReq := numReq m; errorCount := errorCount m;
  snapshots := snapshots m; locked := locked m |}.

Definition set_locked (m : t) (b : bool) : t := {|
  heap := heap m; numReq := numReq m; errorCount := errorCount m;
  snapshots := snapshots m; locked := b |}.

Definition set_snapshots (m : t) (s : list (loc * loc)) : t := {|
  heap := heap m; numReq := numReq m; errorCount := errorCount m;
  snapshots := s; locked := locked m |}.

(** [m[k] = v] on the map stored at [l]. *)
Definition write (h : gmap loc (gmap string Z)) (l : loc) (k : string) (v : Z)
    : gmap loc (gmap string Z) :=
  <[l := <[k := v]> (load h l)]> h.

(** [m[k]++] on the map stored at [l]. *)
Definition incr (h : gmap loc (gmap string Z)) (l : loc) (k : string)
    : gmap loc (gmap string Z) :=
  <[l := map_incr (load h l) k]> h.

(** [ErrorRatePerEndpoint.init]: writes into the maps the metric currently
    points to. *)
Definition init (m : t) : t :=
  let h1 := write (heap m) (numReq m) unknownEndpoint 0 in
  let h2 := write h1 (errorCount m) unknownEndpoint 0 in
  set_heap m h2.

(** [NewErrorRatePerEndpoint]: two fresh maps, at addresses 1 and 2. *)
Definition New : t :=
  init {| heap := <[1%positive := ∅]> (<[2%positive := ∅]> ∅);
          numReq := 1%positive; errorCount := 2%positive;
          snapshots := []; locked := false |}.

(** [ErrorRatePerEndpoint.Update].  The endpoint name is read before the
    lock; the [params["statusCode"].(int)] assertion is evaluated with
    the lock held, and the unlock is not deferred. *)
Definition Update (p : params) (m : t) : go_result t error :=
  match endpointName p with
  | None => Panic m
  | Some ep =>
      if locked m then Deadlock else
      let m1 := set_locked m true in
      match p !! "statusCode" with
      | Some (VInt code) =>
          let h1 := if 400 <=? code then incr (heap m1) (errorCount m1) ep
                    else heap m1 in
          let h2 := incr h1 (numReq m1) ep in
          Ret (set_locked (set_heap m1 h2) false) None
      | _ => Panic m1
      end
  end.

(** [doSnapshot]: the snapshot records the addresses of the live maps,
    then [init] writes into those same maps.  [None]: blocked on the
    mutex. *)
Definition doSnapshot (m : t) : option t :=
  if locked m then None else
  Some (init (set_snapshots m (snapshots m ++ [(numReq m, errorCount m)]))).

(** First loop of [ValueMap], for one snapshot: the accumulator is
    [(errorCount, requestCount)]; the keys visited are those of the
    snapshot's [errorCount] map. *)
Definition sum_snapshot (h : gmap loc (gmap string Z))
    (acc : gmap string Z * gmap string Z) (s : loc * loc)
    : gmap string Z * gmap string Z :=
  let '(snumReq, serrorCount) := s in
  map_fold (fun ep ec (acc : gmap string Z * gmap string Z) =>
      (<[ep := map_get acc.1 ep + ec]> acc.1,
       <[ep := map_get acc.2 ep + map_get (load h snumReq) ep]> acc.2))
    acc (load h serrorCount).

(** Second loop of [ValueMap], for one endpoint of the summed [errorCount]:
    the accumulator is [(errorRate, errorCountOverall, requestCountOverall)]. *)
Definition rate_entry (requestCount : gmap string Z) (ep : string) (ec : Z)
    (acc : gmap string Q * Z * Z) : gmap string Q * Z * Z :=
  let '(errorRate, errorCountOverall, requestCountOverall) := acc in
  let name := metricName base ep in
  let errorRate := <[name := 0%Q]> errorRate in
  let overallReq := float32_of_int (map_get requestCount ep) in
  let errorRate :=
    if Qle_bool overallReq 0 then errorRate
    else <[name := (float32_of_int ec / overallReq)%Q]> errorRate in
  (errorRate, errorCountOverall + ec, requestCountOverall + map_get requestCount ep).

(** The export mapping computed from a store and a ledger. *)
Definition export (h : gmap loc (gmap string Z)) (l : list (loc * loc))
    : gmap string Q :=
  let '(errorCount, requestCount) := fold_left (sum_snapshot h) l (∅, ∅) in
  let '(errorRate, errorCountOverall, requestCountOverall) :=
    map_fold (rate_entry requestCount) (∅, 0, 0) errorCount in
  let errorRate := <[overallName base := 0%Q]> errorRate in
  if 0 <? requestCountOverall then
    <[overallName base := (float32_of_int errorCountOverall
                           / float32_of_int requestCountOverall)%Q]> errorRate
  else errorRate.

(** [ErrorRatePerEndpoint.ValueMap]; [None]: blocked on the mutex. *)
Definition ValueMap (m : t) : option (gmap string Q * t) :=
  match doSnapshot m with
  | None => None
  | Some m1 => Some (export (heap m1) (snapshots m1), m1)
  end.

(** [ErrorRatePerEndpoint.Clear] *)
Definition Clear (m : t) : t := set_snapshots m [].

(** Contents of a retained snapshot, as read through its addresses. *)
Definition snapshot_contents (m : t) (s : loc * loc) : gmap string Z * gmap string Z :=
  (load (heap m) s.1, load (heap m) s.2).

End ErrorRatePerEndpoint.

(** ** Response time per endpoint *)
Module ResponseTimePerEndpoint.

(** The metric has no ledger.  Its mutex is left out: no operation can
    panic or block while holding it. *)
Record t := {
  numReq : gmap string Z;
  responseTimeMap : gmap string (list Q)
}.

Definition base : MetricBase := {|
  namePrefix := "Component/ResponseTimePerEndpoint/";
  namePrefixOverall := "Component/ResponseTime/overall";
  metricUnit := "[ms]" |}.

(** [NewResponseTimePerEndpoint]: [make([]float32, 1)] is [[0]]. *)
Definition New : t := {|
  numReq := ∅;
  responseTimeMap := <[unknownEndpoint := [0%Q]]> ∅ |}.

(** [ResponseTimePerEndpoint.Update] at wall-clock time [now] (ns): the
    elapsed time since ["reqStartTime"] in milliseconds is appended to the
    endpoint's list. *)
Definition Update (now : Z) (p : params) (m : t) : go_result t error :=
  match p !! "reqStartTime" with
  | None => Ret m (Some "reqStart time should be time.Time")
  | Some (VTime startTime) =>
      let elapsedTimeInMs := (inject_Z (now - startTime) / inject_Z 1000000)%Q in
      match endpointName p with
      | None => Panic m
      | Some ep =>
          Ret {| numReq := map_incr (numReq m) ep;
                 responseTimeMap :=
                   <[ep := default [] (responseTimeMap m !! ep) ++ [elapsedTimeInMs]]>
                     (responseTimeMap m) |} None
      end
  | Some _ => Panic m
  end.

(** Body of the [ValueMap] loop over [responseTimeMap]: the accumulator is
    [(metrics, responseTimeAllEndpoints, numReqAllEndpoints, m)], where
    [m] is the metric being reset entry by entry. *)
Definition value_entry (ep : string) (values : list Q)
    (acc : gmap string Q * Q * Z * t) : gmap string Q * Q * Z * t :=
  let '(metrics, responseTimeAllEndpoints, numReqAllEndpoints, m) := acc in
  let responseTimeSum := fold_left Qplus values 0%Q in
  let name := metricName base ep in
  let metrics := <[name := 0%Q]> metrics in
  let numReq := float32_of_int (map_get (ResponseTimePerEndpoint.numReq m) ep) in
  let metrics :=
    if Qle_bool numReq 0 then metrics
    else <[name := (responseTimeSum / numReq)%Q]> metrics in
  (metrics, (responseTimeAllEndpoints + responseTimeSum)%Q,
   numReqAllEndpoints + map_get (ResponseTimePerEndpoint.numReq m) ep,
   {| numReq := <[ep := 0]> (ResponseTimePerEndpoint.numReq m);
      responseTimeMap := <[ep := [0%Q]]> (responseTimeMap m) |}).

(** [ResponseTimePerEndpoint.ValueMap]: reports the live state and resets
    it. *)
Definition ValueMap (m : t) : gmap string Q * t :=
  let '(metrics, responseTimeAllEndpoints, numReqAllEndpoints, m') :=
    map_fold value_entry (∅, 0%Q, 0, m) (responseTimeMap m) in
  let metrics := <[overallName base := 0%Q]> metrics in
  let metrics :=
    if 0 <? numReqAllEndpoints then
      <[overallName base := (responseTimeAllEndpoints
                             / float32_of_int numReqAllEndpoints)%Q]> metrics
    else metrics in
  (metrics, m').

(** [ResponseTimePerEndpoint.Clear]: its body is commented out. *)
Definition Clear (m : t) : t := m.

End ResponseTimePerEndpoint.

(** ** The reporter *)
Module Reporter.

(** The three implementations of [AppMetric]. *)
Inductive AppMetric :=
  | MReq (m : ReqPerEndpoint.t)
  | MErr (m : ErrorRatePerEndpoint.t)
  | MResp (m : ResponseTimePerEndpoint.t).

Definition ValueMap (a : AppMetric) : option (gmap string Q * AppMetric) :=
  match a with
  | MReq m => let '(vm, m') := ReqPerEndpoint.ValueMap m in Some (vm, MReq m')
  | MErr m =>
      match ErrorRatePerEndpoint.ValueMap m with
      | None => None
      | Some (vm, m') => Some (vm, MErr m')
      end
  | MResp m => let '(vm, m') := ResponseTimePerEndpoint.ValueMap m in Some (vm, MResp m')
  end.

Definition Clear (a : AppMetric) : AppMetric :=
  match a with
  | MReq m => MReq (ReqPerEndpoint.Clear m)
  | MErr m => MErr (ErrorRatePerEndpoint.Clear m)
  | MResp m => MResp (ResponseTimePerEndpoint.Clear m)
  end.

(** What the HTTP client reports for the POST: a transport error or a
    response with a status code. *)
Inductive response :=
  | NetworkError
  | Status (code : Z).

(** [Reporter.doRequest]: the outcome only reaches the log. *)
Definition doRequest (resp : response) : list string :=
  match resp with
  | NetworkError => ["Post request to NewRelic failed"]
  | Status code =>
      if code =? 200 then [] else ["Error in request to NewRelic"]
  end.

(** The loop of [sendMetrics] that extracts every metric into the
    payload; [None]: blocked on a metric's mutex. *)
Fixpoint extract (ms : list AppMetric) (payload : gmap string Q)
    : option (list AppMetric * gmap string Q) :=
  match ms with
  | [] => Some ([], payload)
  | a :: ms' =>
      match ValueMap a with
      | None => None
      | Some (vm, a') =>
          match extract ms' (vm ∪ payload) with
          | None => None
          | Some (ms'', payload') => Some (a' :: ms'', payload')
          end
      end
  end.

(** [Reporter.sendMetrics] for one tick, given the response the POST
    receives: the new metrics, the payload sent and the log lines.
    [json.Marshal] of a [map[string]float32] without NaN cannot fail, and
    its error would be discarded anyway. *)
Definition sendMetrics (resp : response) (ms : list AppMetric)
    : option (list AppMetric * gmap string Q * list string) :=
  match extract ms ∅ with
  | None => None
  | Some (ms', payload) => Some (ms', payload, doRequest resp)
  end.

End Reporter.

(** ** Traces of calls on one metric *)
Module Trace.
Import Reporter.

(** [AppMetric.Update]; [now] is the wall clock the latency metric reads. *)
Definition Update (now : Z) (p : params) (a : AppMetric) : go_result AppMetric error :=
  let lift {S} (f : S -> AppMetric) (r : go_result S error) :=
    match r with
    | Ret s e => Ret (f s) e
    | Panic s => Panic (f s)
    | Deadlock => Deadlock
    end in
  match a with
  | MReq m => lift MReq (ReqPerEndpoint.Update p m)
  | MErr m => lift MErr (ErrorRatePerEndpoint.Update p m)
  | MResp m => lift MResp (ResponseTimePerEndpoint.Update now p m)
  end.

Inductive op :=
  | OUpdate (now : Z) (p : params)
  | OExport
  | OClear.

(** Runs a sequence of calls, collecting the mappings returned by the
    exports; [None] if a call panics or blocks.  An error returned by
    [Update] is ignored, as [UpdateMetricsOnReqEnd] does. *)
Fixpoint run (ops : list op) (a : AppMetric) : option (AppMetric * list (gmap string Q)) :=
  match ops with
  | [] => Some (a, [])
  | OUpdate now p :: ops' =>
      match Update now p a with
      | Ret a' _ => run ops' a'
      | _ => None
      end
  | OExport :: ops' =>
      match ValueMap a with
      | None => None
      | Some (vm, a') =>
          match run ops' a' with
          | None => None
          | Some (a'', vms) => Some (a'', vm :: vms)
          end
      end
  | OClear :: ops' => run ops' (Clear a)
  end.

(** The mapping returned by the last export of a trace. *)
Definition last_export (ops : list op) (a : AppMetric) : option (gmap string Q) :=
  match run ops a with
  | Some (_, vms) => last vms
  | None => None
  end.

(** [N] updates with an export after each one, or with one export after
    all of them. *)
Definition export_each (ups : list (Z * params)) : list op :=
  flat_map (fun u => [OUpdate u.1 u.2; OExport]) ups.

Definition export_once (ups : list (Z * params)) : list op :=
  map (fun u => OUpdate u.1 u.2) ups ++ [OExport].

End Trace.

(** ** Request parameter bags used in the scenarios *)

Definition bag_ep (ep : string) : params := <["endpointName" := VString ep]> ∅.

Definition bag_status (ep : string) (code : Z) : params :=
  <["statusCode" := VInt code]> (bag_ep ep).

Definition bag_start (ep : string) (startTime : Z) : params :=
  <["reqStartTime" := VTime startTime]> (bag_ep ep).

(** ** Summaries of the request-count metric used in the proofs *)
Module ReqSummary.
Import ReqPerEndpoint.

(** Merging two count maps key by key. *)
Definition zmerge (acc s : gmap string Z) : gmap string Z :=
  union_with (fun x y => Some (x + y)) acc s.

(** Sum of all the counts of a map. *)
Definition map_total (s : gmap string Z) : Z :=
  map_fold (fun _ v acc => v + acc) 0 s.

(** Counts and total of a ledger. *)
Definition zsum (l : list (gmap string Z)) : gmap string Z := fold_left zmerge l ∅.

Definition total (l : list (gmap string Z)) : Z :=
  fold_left (fun acc s => acc + map_total s) l 0.

(** The export mapping as a function of the merged counts and total. *)
Definition mapping (z : gmap string Z) (tot : Z) : gmap string Q :=
  <[overallName base := inject_Z tot]> (kmap (metricName base) (inject_Z <$> z)).

(** All events since the last Clear: the ledger merged with the live map. *)
Definition events (m : t) : gmap string Z := zmerge (zsum (snapshots m)) (numReq m).

Definition events_total (m : t) : Z := total (snapshots m) + map_total (numReq m).

(** Every count of the ledger and of the live map is non-negative (true
    of every state reached from [New]). *)
Definition nonneg (m : t) : Prop :=
  Forall (map_Forall (fun _ v => 0 <= v)) (snapshots m) /\
  map_Forall (fun _ v => 0 <= v) (numReq m).

(** The endpoint an update is recorded under. *)
Definition resolved (u : Z * params) : string := default unknownEndpoint (endpointName u.2).

End ReqSummary.

(** ** Reachable states and ledger preservation *)
Module Reach.
Import ErrorRatePerEndpoint.

(** States of the error-rate metric reached from its constructor by
    calls that return. *)
Inductive er_reachable : ErrorRatePerEndpoint.t -> Prop :=
  | er_new : er_reachable New
  | er_update p m m' e : er_reachable m -> Update p m = Ret m' e -> er_reachable m'
  | er_export m vm m' : er_reachable m -> ValueMap m = Some (vm, m') -> er_reachable m'
  | er_clear m : er_reachable m -> er_reachable (Clear m).

(** The live request and error counts of the error-rate metric. *)
Definition er_requests (m : ErrorRatePerEndpoint.t) : gmap string Z :=
  load (heap m) (numReq m).

Definition er_errors (m : ErrorRatePerEndpoint.t) : gmap string Z :=
  load (heap m) (errorCount m).

(** States of the latency metric reached from its constructor. *)
Inductive rt_reachable : ResponseTimePerEndpoint.t -> Prop :=
  | rt_new : rt_reachable ResponseTimePerEndpoint.New
  | rt_update now p m m' e :
      rt_reachable m -> ResponseTimePerEndpoint.Update now p m = Ret m' e -> rt_reachable m'
  | rt_export m : rt_reachable m -> rt_reachable (ResponseTimePerEndpoint.ValueMap m).2
  | rt_clear m : rt_reachable m -> rt_reachable (ResponseTimePerEndpoint.Clear m).

(** After a dispatch cycle a metric still retains every snapshot it
    retained before (the latency metric has no ledger). *)
Definition ledger_kept (a a' : Reporter.AppMetric) : Prop :=
  match a, a' with
  | Reporter.MReq m, Reporter.MReq m' =>
      exists ext, ReqPerEndpoint.snapshots m' = ReqPerEndpoint.snapshots m ++ ext
  | Reporter.MErr m, Reporter.MErr m' =>
      exists ext, ErrorRatePerEndpoint.snapshots m' = ErrorRatePerEndpoint.snapshots m ++ ext
  | Reporter.MResp _, Reporter.MResp _ => True
  | _, _ => False
  end.

End Reach.

(** ** The package entry points (reporter.go, simplerelic.go) *)
Module Package.
Import Reporter.

(** [Reporter]: the fields read by the code modelled here. *)
Record Reporter := {
  Metrics : list AppMetric;
  host : string;
  pid : Z;
  guid : string;
  duration : Z;
  version : string;
  appName : string;
  licence : string;
  verbose : bool
}.

Definition set_Metrics (r : Reporter) (ms : list AppMetric) : Reporter := {|
  Metrics := ms; host := host r; pid := pid r; guid := guid r;
  duration := duration r; version := version r; appName := appName r;
  licence := licence r; verbose := verbose r |}.

(** [NewReporter]: [hostname] is the result of [os.Hostname()] ([None]
    for an error), [pid] that of [os.Getpid()] and [Guid] the package
    variable.  A nil [*Reporter] is [None]. *)
Definition NewReporter (hostname : option string) (pid : Z) (Guid : string)
    (appName licence : string) (verbose : bool) : option Reporter * error :=
  match hostname with
  | None => (None, Some "Can not get hostname")
  | Some host =>
      if String.eqb licence "" then (None, Some "Please specify Newrelic licence")
      else (Some {| Metrics := []; host := host; pid := pid; guid := Guid;
                    duration := 60; version := "1.0.0"; appName := appName;
                    licence := licence; verbose := verbose |}, None)
  end.

(** [Reporter.AddMetric] *)
Definition AddMetric (r : Reporter) (metric : AppMetric) : Reporter :=
  set_Metrics r (Metrics r ++ [metric]).

(** [InitDefaultReporter]: returns the new value of the package variable
    [Engine] (assigned whatever [NewReporter] returned, nil on error)
    together with the function's results. *)
Definition InitDefaultReporter (hostname : option string) (pid : Z) (Guid : string)
    (appname licence : string) (verbose : bool)
    : option Reporter * (option Reporter * error) :=
  match NewReporter hostname pid Guid appname licence verbose with
  | (Engine, Some err) => (Engine, (None, Some err))
  | (None, None) => (None, (None, None))
  | (Some r, None) =>
      let r := AddMetric r (MReq ReqPerEndpoint.New) in
      let r := AddMetric r (MErr ErrorRatePerEndpoint.New) in
      let r := AddMetric r (MResp ResponseTimePerEndpoint.New) in
      (Some r, (Some r, None))
  end.

(** [DefaultReqParams] at wall-clock time [now] ([time.Now()]). *)
Definition DefaultReqParams (endpointName : string) (now : Z) : params :=
  <["reqStartTime" := VTime now]> (<["endpointName" := VString endpointName]> ∅).

(** [CollectParamsOnReqEnd]: the bag it was given, with the status code. *)
Definition CollectParamsOnReqEnd (p : params) (statusCode : Z) : params :=
  <["statusCode" := VInt statusCode]> p.

(** The loop of [UpdateMetricsOnReqEnd]: the returned errors are ignored;
    a panic stops the loop, leaving the later metrics untouched.  [now] is
    the instant the latency metric reads the clock. *)
Fixpoint update_all (now : Z) (p : params) (ms : list AppMetric)
    : go_result (list AppMetric) unit :=
  match ms with
  | [] => Ret [] tt
  | a :: ms' =>
      match Trace.Update now p a with
      | Ret a' _ =>
          match update_all now p ms' with
          | Ret ms'' _ => Ret (a' :: ms'') tt
          | Panic ms'' => Panic (a' :: ms'')
          | Deadlock => Deadlock
          end
      | Panic a' => Panic (a' :: ms')
      | Deadlock => Deadlock
      end
  end.

(** [UpdateMetricsOnReqEnd] on the package variable [Engine]; a nil
    [Engine] is dereferenced and panics. *)
Definition UpdateMetricsOnReqEnd (now : Z) (p : params) (Engine : option Reporter)
    : go_result (option Reporter) unit :=
  match Engine with
  | None => Panic None
  | Some r =>
      match update_all now p (Metrics r) with
      | Ret ms _ => Ret (Some (set_Metrics r ms)) tt
      | Panic ms => Panic (Some (set_Metrics r ms))
      | Deadlock => Deadlock
      end
  end.

End Package.

(** ** The earlier version of the metrics

    The first file of [src/unnamed/part_000] holds an earlier version of
    the metrics, built on [StandardMetric] and without snapshots or
    [Clear]: [ValueMap] reports the counts since the previous call and
    resets them in place.  Metric names and the parameter bag are read as
    in the current version ([StandardMetric.endpointName] is
    [MetricBase.endpointName], [allEPNamePrefix] is [namePrefixOverall]).
    Its latency metric is the current [ResponseTimePerEndpoint] without
    [Clear] and is not repeated here. *)
Module Legacy.

(** [StandardMetric.initReqCount]: the [endpoints] map is never assigned,
    so only ["other"] is set to 0. *)
Definition initReqCount (reqCount : gmap string Z) : gmap string Z :=
  <[unknownEndpoint := 0]> reqCount.

Module ReqPerEndpoint.

(** The mutex is left out: neither [Update] nor [ValueMap] can panic or
    block while holding it. *)
Record t := { reqCount : gmap string Z }.

Definition base : MetricBase := {|
  namePrefix := "Component/ReqPerEndpoint/";
  namePrefixOverall := "Component/Req/overall";
  metricUnit := "[requests]" |}.

(** [NewReqPerEndpoint] *)
Definition New : t := {| reqCount := initReqCount ∅ |}.

(** [ReqPerEndpoint.Update] *)
Definition Update (p : params) (m : t) : go_result t error :=
  match endpointName p with
  | None => Panic m
  | Some ep => Ret {| reqCount := map_incr (reqCount m) ep |} None
  end.

(** Body of [for endpoint, value := range m.reqCount]: the accumulator
    is [(metricMap, numReqAllEndpoints)]. *)
Definition count_entry (ep : string) (value : Z) (acc : gmap string Q * Z)
    : gmap string Q * Z :=
  (<[metricName base ep := float32_of_int value]> acc.1, acc.2 + value).

(** [ReqPerEndpoint.ValueMap]: reports the live counts and replaces the
    map with an empty one. *)
Definition ValueMap (m : t) : gmap string Q * t :=
  let '(metricMap, numReqAllEndpoints) := map_fold count_entry (∅, 0) (reqCount m) in
  (<[overallName base := float32_of_int numReqAllEndpoints]> metricMap,
   {| reqCount := ∅ |}).

End ReqPerEndpoint.

Module ErrorRatePerEndpoint.

(** [locked] is the state of the mutex. *)
Record t := {
  reqCount : gmap string Z;
  errorCount : gmap string Z;
  locked : bool
}.

Definition base : MetricBase := {|
  namePrefix := "Component/ErrorRatePerEndpoint/";
  namePrefixOverall := "Component/ErrorRate/overall";
  metricUnit := "[percent]" |}.

(** [NewErrorRatePerEndpoint] *)
Definition New : t := {|
  reqCount := initReqCount ∅;
  errorCount := <[unknownEndpoint := 0]> ∅;
  locked := false |}.

(** [ErrorRatePerEndpoint.Update]: the [params["statusCode"].(int)]
    assertion is evaluated with the lock held, and the unlock is not
    deferred. *)
Definition Update (p : params) (m : t) : go_result t error :=
  match endpointName p with
  | None => Panic m
  | Some ep =>
      if locked m then Deadlock else
      match p !! "statusCode" with
      | Some (VInt code) =>
          Ret {| reqCount := map_incr (reqCount m) ep;
                 errorCount := if 400 <=? code then map_incr (errorCount m) ep
                               else errorCount m;
                 locked := false |} None
      | _ => Panic {| reqCount := reqCount m; errorCount := errorCount m; locked := true |}
      end
  end.

(** Body of [for endpoint := range m.errorCount]: the accumulator is
    [(metrics, allEPErrors, reqAllEndpoints, m)], where [m] is the metric
    whose counts are zeroed entry by entry. *)
Definition rate_entry (ep : string) (_ : Z) (acc : gmap string Q * Z * Z * t)
    : gmap string Q * Z * Z * t :=
  let '(metrics, allEPErrors, reqAllEndpoints, m) := acc in
  let name := metricName base ep in
  let metrics := <[name := 0%Q]> metrics in
  let overallReq := float32_of_int (map_get (reqCount m) ep) in
  let metrics :=
    if Qle_bool overallReq 0 then metrics
    else <[name := (float32_of_int (map_get (errorCount m) ep) / overallReq)%Q]> metrics in
  (metrics, allEPErrors + map_get (errorCount m) ep,
   reqAllEndpoints + map_get (reqCount m) ep,
   {| reqCount := <[ep := 0]> (reqCount m);
      errorCount := <[ep := 0]> (errorCount m);
      locked := locked m |}).

(** [ErrorRatePerEndpoint.ValueMap]; [None]: blocked on the mutex. *)
Definition ValueMap (m : t) : option (gmap string Q * t) :=
  if locked m then None else
  let '(metrics, allEPErrors, reqAllEndpoints, m') :=
    map_fold rate_entry (∅, 0, 0, m) (errorCount m) in
  let metrics := <[overallName base := 0%Q]> metrics in
  let metrics :=
    if 0 <? reqAllEndpoints then
      <[overallName base := (float32_of_int allEPErrors
                             / float32_of_int reqAllEndpoints)%Q]> metrics
    else metrics in
  Some (metrics, m').

End ErrorRatePerEndpoint.

End Legacy.

(** * Properties *)

Import Reporter Trace.

(** ** Concrete scenarios *)

(** C6: from a fresh error-rate metric, updates with status codes 404
    and 200, an export, updates with 200 and 200, and a second export
    with no Clear in between: the second export reports 1/4 for the
    endpoint. *)
Lemma error_rate_scenario_quarter :
  match last_export
          [OUpdate 0 (bag_status "log" 404); OUpdate 0 (bag_status "log" 200);
           OExport;
           OUpdate 0 (bag_status "log" 200); OUpdate 0 (bag_status "log" 200);
           OExport] (MErr ErrorRatePerEndpoint.New) with
  | Some vm =>
      exists v, vm !! metricName ErrorRatePerEndpoint.base "log" = Some v /\ (v == 1 # 4)%Q
  | None => False
  end.
Proof. vm_compute. eexists. split; [reflexivity | reflexivity]. Qed.

(** C8 fails on the aggregate entry: with one failed request on ["a"] and
    one successful request on ["b"], the retained snapshot holds 1 error
    out of 2 requests, but the aggregate entry is 1, because the summing
    loops only visit endpoints that have a key in [errorCount]. *)
Lemma error_rate_overall_skips_error_free_endpoints :
  match run [OUpdate 0 (bag_status "a" 404); OUpdate 0 (bag_status "b" 200); OExport]
            (MErr ErrorRatePerEndpoint.New) with
  | Some (MErr m, [vm]) =>
      vm !! overallName ErrorRatePerEndpoint.base = Some 1%Q /\
      ErrorRatePerEndpoint.snapshots m =
        [(ErrorRatePerEndpoint.numReq m, ErrorRatePerEndpoint.errorCount m)] /\
      map_fold (fun _ v acc => v + acc) 0
        (ErrorRatePerEndpoint.load (ErrorRatePerEndpoint.heap m)
                                   (ErrorRatePerEndpoint.numReq m)) = 2 /\
      map_fold (fun _ v acc => v + acc) 0
        (ErrorRatePerEndpoint.load (ErrorRatePerEndpoint.heap m)
                                   (ErrorRatePerEndpoint.errorCount m)) = 1
  | _ => False
  end.
Proof. vm_compute. repeat split; reflexivity. Qed.

(** C4 fails for the error-rate metric: the snapshot retained by an export
    shares the live maps, so a later Update changes its request count for
    ["log"] from 1 to 2. *)
Lemma error_rate_retained_snapshot_changes :
  match run [OUpdate 0 (bag_status "log" 404); OExport] (MErr ErrorRatePerEndpoint.New) with
  | Some (MErr m1, _) =>
      match ErrorRatePerEndpoint.Update (bag_status "log" 200) m1 with
      | Ret m2 _ =>
          match ErrorRatePerEndpoint.snapshots m1 with
          | [s] =>
              ErrorRatePerEndpoint.snapshots m2 = [s] /\
              map_get (ErrorRatePerEndpoint.snapshot_contents m1 s).1 "log" = 1 /\
              map_get (ErrorRatePerEndpoint.snapshot_contents m2 s).1 "log" = 2
          | _ => False
          end
      | _ => False
      end
  | _ => False
  end.
Proof. vm_compute. repeat split; reflexivity. Qed.

(** C5 fails for the error-rate metric: without a status code its Update
    panics on the type assertion with the mutex held, so it returns no
    error value and every later Update or export blocks. *)
Lemma error_rate_missing_status_panics_locked :
  match ErrorRatePerEndpoint.Update (bag_ep "log") ErrorRatePerEndpoint.New with
  | Panic m =>
      ErrorRatePerEndpoint.locked m = true /\
      ErrorRatePerEndpoint.Update (bag_status "log" 200) m = Deadlock /\
      ErrorRatePerEndpoint.ValueMap m = None
  | _ => False
  end.
Proof. vm_compute. repeat split; reflexivity. Qed.

(** C10 fails for the request-count metric: after an export and a Clear,
    the next export has no entry for ["other"]. *)
Lemma req_other_entry_missing_after_clear :
  match run [OExport; OClear; OExport] (MReq ReqPerEndpoint.New) with
  | Some (_, [vm1; vm2]) =>
      vm1 !! metricName ReqPerEndpoint.base unknownEndpoint = Some 0%Q /\
      vm2 !! metricName ReqPerEndpoint.base unknownEndpoint = None
  | _ => False
  end.
Proof. vm_compute. split; reflexivity. Qed.

(** C3 fails when an Update comes between the last export and Clear:
    Clear does not discard it, so the entry for ["log"], 1 before Clear,
    is 1 again after it. *)
Lemma req_clear_keeps_pending_update :
  match run [OUpdate 0 (bag_ep "log"); OExport; OUpdate 0 (bag_ep "log"); OClear; OExport]
            (MReq ReqPerEndpoint.New) with
  | Some (_, [vm1; vm2]) =>
      vm1 !! metricName ReqPerEndpoint.base "log" = Some 1%Q /\
      vm2 !! metricName ReqPerEndpoint.base "log" = Some 1%Q
  | _ => False
  end.
Proof. vm_compute. split; reflexivity. Qed.

(** C1 fails for the latency metric: two requests of 10 ms and 30 ms give
    a last export of 30 ms when exporting after each one, and 20 ms when
    exporting once.  It fails for the request-count metric once a count
    passes [2^24]: from a ledger holding [2^24] requests to ["log"], two
    more requests to ["log"] are each absorbed by the float32 addition
    when exported one at a time (the last export reports [2^24]), while a
    single export after both reports [2^24 + 2]. *)
Lemma export_not_cumulative :
  (let ups := [(10000000, bag_start "log" 0); (30000000, bag_start "log" 0)] in
   match last_export (export_each ups) (MResp ResponseTimePerEndpoint.New),
         last_export (export_once ups) (MResp ResponseTimePerEndpoint.New) with
   | Some vm1, Some vm2 =>
       (exists v, vm1 !! overallName ResponseTimePerEndpoint.base = Some v /\ (v == 30)%Q) /\
       (exists v, vm2 !! overallName ResponseTimePerEndpoint.base = Some v /\ (v == 20)%Q)
   | _, _ => False
   end) /\
  (let m := {| ReqPerEndpoint.numReq := ∅;
               ReqPerEndpoint.snapshots := [<["other" := 0]> (<["log" := 2 ^ 24]> ∅)] |} in
   let ups := [(0, bag_ep "log"); (0, bag_ep "log")] in
   match last_export (export_each ups) (MReq m), last_export (export_once ups) (MReq m) with
   | Some vm1, Some vm2 =>
       vm1 !! metricName ReqPerEndpoint.base "log" = Some (inject_Z 16777216) /\
       vm2 !! metricName ReqPerEndpoint.base "log" = Some (inject_Z 16777218)
   | _, _ => False
   end).
Proof.
  split.
  - vm_compute. split; eexists; split; reflexivity.
  - vm_compute. split; reflexivity.
Qed.

(** C2 fails on success: after a cycle whose POST is answered with 200,
    the request-count metric still retains the snapshot it exported,
    which [Clear] would have discarded. *)
Lemma send_success_does_not_clear :
  match sendMetrics (Status 200) [MReq ReqPerEndpoint.New] with
  | Some ([MReq m], _, logs) =>
      ReqPerEndpoint.snapshots m <> [] /\ logs = [] /\
      ReqPerEndpoint.snapshots (ReqPerEndpoint.Clear m) = []
  | _ => False
  end.
Proof. vm_compute. split; [discriminate | split; reflexivity]. Qed.

(** ** Lemmas on strings, rationals and maps *)

Lemma string_length_app (a b : string) :
  String.length (a +:+ b) = (String.length a + String.length b)%nat.
Proof. induction a as [|c a IH]; simpl; [reflexivity | now rewrite IH]. Qed.

Lemma string_app_inj_r (u a b : string) : a +:+ u = b +:+ u -> a = b.
Proof.
  revert b. induction a as [|c a IH]; intros [|d b] H; simpl in H.
  - reflexivity.
  - apply (f_equal String.length) in H. simpl in H.
    rewrite !string_length_app in H. simpl in H. lia.
  - apply (f_equal String.length) in H. simpl in H.
    rewrite !string_length_app in H. simpl in H. lia.
  - injection H as -> H. now rewrite (IH b H).
Qed.

#[local] Instance metricName_inj (b : MetricBase) : Inj eq eq (metricName b).
Proof.
  intros x y H. unfold metricName in H.
  apply (inj (String.append (namePrefix b))) in H.
  exact (string_app_inj_r _ _ _ H).
Qed.

Lemma Qplus_inject_Z (a b : Z) : (inject_Z a + inject_Z b)%Q = inject_Z (a + b).
Proof. unfold Qplus, inject_Z. simpl. now rewrite !Z.mul_1_r. Qed.

(** ** Request-count metric: exports as a function of all events *)
Module ReqProofs.
Import ReqPerEndpoint ReqSummary.

Lemma map_total_insert_fresh (s : gmap string Z) (i : string) (x : Z) :
  s !! i = None -> map_total (<[i:=x]> s) = x + map_total s.
Proof.
  intros Hi. unfold map_total. rewrite map_fold_insert_L; [reflexivity | | exact Hi].
  intros; lia.
Qed.

Lemma map_total_incr (s : gmap string Z) (e : string) :
  map_total (map_incr s e) = map_total s + 1.
Proof.
  unfold map_incr, map_get. destruct (s !! e) as [z|] eqn:He; simpl.
  - rewrite <-(insert_delete_id s e z He) at 2.
    rewrite <-(insert_delete_eq s e (z + 1)).
    rewrite !map_total_insert_fresh by (apply lookup_delete_eq). lia.
  - rewrite map_total_insert_fresh by exact He. lia.
Qed.

Lemma zmerge_empty_r (x : gmap string Z) : zmerge x ∅ = x.
Proof.
  apply map_eq. intros k. unfold zmerge. rewrite lookup_union_with, lookup_empty.
  now destruct (x !! k).
Qed.

Lemma zmerge_incr (x a : gmap string Z) (e : string) :
  zmerge x (map_incr a e) = map_incr (zmerge x a) e.
Proof.
  apply map_eq. intros k. unfold zmerge, map_incr, map_get.
  destruct (decide (k = e)) as [->|Hne].
  - rewrite lookup_union_with, !lookup_insert_eq, lookup_union_with.
    destruct (x !! e), (a !! e); simpl; f_equal; lia.
  - rewrite lookup_union_with, !lookup_insert_ne by congruence.
    now rewrite lookup_union_with.
Qed.

Lemma zmerge_insert_fresh (x s : gmap string Z) (i : string) (v : Z) :
  s !! i = None -> zmerge x (<[i:=v]> s) = <[i := map_get (zmerge x s) i + v]> (zmerge x s).
Proof.
  intros Hi. apply map_eq. intros k. unfold zmerge, map_get.
  destruct (decide (k = i)) as [->|Hne].
  - rewrite lookup_union_with, !lookup_insert_eq, lookup_union_with, Hi.
    destruct (x !! i); simpl; f_equal; lia.
  - rewrite lookup_union_with, !lookup_insert_ne by congruence.
    now rewrite lookup_union_with.
Qed.

Lemma map_get_zmerge (x s : gmap string Z) (k : string) :
  map_get (zmerge x s) k = map_get x k + map_get s k.
Proof.
  unfold zmerge, map_get. rewrite lookup_union_with.
  destruct (x !! k), (s !! k); simpl; lia.
Qed.

Lemma map_get_insert_eq (s : gmap string Z) (i : string) (x : Z) :
  map_get (<[i:=x]> s) i = x.
Proof. unfold map_get. now rewrite lookup_insert_eq. Qed.

Lemma map_get_insert_ne (s : gmap string Z) (i k : string) (x : Z) :
  k <> i -> map_get (<[i:=x]> s) k = map_get s k.
Proof. intros Hne. unfold map_get. now rewrite lookup_insert_ne by congruence. Qed.

Lemma map_get_nonneg (s : gmap string Z) :
  map_Forall (fun _ v => 0 <= v) s -> forall k, 0 <= map_get s k.
Proof.
  intros Hs k. unfold map_get. destruct (s !! k) as [v|] eqn:E; simpl; [exact (Hs k v E) | lia].
Qed.

(** In a map of non-negative counts, the total bounds every count. *)
Lemma map_total_bounds (s : gmap string Z) :
  map_Forall (fun _ v => 0 <= v) s ->
  0 <= map_total s /\ forall k, map_get s k <= map_total s.
Proof.
  unfold map_total.
  refine (map_fold_weak_ind
            (fun r s => map_Forall (fun _ v => 0 <= v) s -> 0 <= r /\ forall k, map_get s k <= r)
            _ 0 _ _ s).
  - intros _. split; [lia|]. intros k. unfold map_get. rewrite lookup_empty. simpl. lia.
  - intros i x s' r Hi IH Hs.
    apply map_Forall_insert in Hs as [Hx Hs]; [|exact Hi].
    destruct (IH Hs) as [Hr Hk]. split; [lia|]. intros k.
    destruct (decide (k = i)) as [->|Hne].
    + rewrite map_get_insert_eq. lia.
    + rewrite map_get_insert_ne by exact Hne. specialize (Hk k). lia.
Qed.

Lemma fold_zmerge_mono (l : list (gmap string Z)) (x : gmap string Z) (k : string) :
  Forall (map_Forall (fun _ v => 0 <= v)) l -> map_get x k <= map_get (fold_left zmerge l x) k.
Proof.
  revert x. induction l as [|s l IH]; intros x Hl; simpl; [lia|].
  inversion Hl as [|? ? Hs Hl']; subst.
  specialize (IH (zmerge x s) Hl'). rewrite map_get_zmerge in IH.
  pose proof (map_get_nonneg s Hs k). lia.
Qed.

Lemma fold_zmerge_le_total (l : list (gmap string Z)) (x : gmap string Z) (t : Z) :
  Forall (map_Forall (fun _ v => 0 <= v)) l -> (forall k, map_get x k <= t) ->
  t <= fold_left (fun acc s => acc + map_total s) l t /\
  forall k, map_get (fold_left zmerge l x) k <= fold_left (fun acc s => acc + map_total s) l t.
Proof.
  revert x t. induction l as [|s l IH]; intros x t Hl Hx; simpl; [split; [lia | exact Hx]|].
  inversion Hl as [|? ? Hs Hl']; subst.
  destruct (map_total_bounds s Hs) as [H0 Hk].
  destruct (IH (zmerge x s) (t + map_total s) Hl') as [IH1 IH2].
  { intros k. rewrite map_get_zmerge. specialize (Hx k). specialize (Hk k). lia. }
  split; [lia | exact IH2].
Qed.

(** [float32] is exact on integers of magnitude at most [2^24]. *)
Lemma f32_round_small (z : Z) : Z.abs z <= 2 ^ 24 -> f32_round z = z.
Proof.
  intros H. unfold f32_round.
  destruct (Z.ltb_spec (Z.abs z) (2 ^ 24)) as [_|Hge]; [reflexivity|].
  assert (Hz : z = 2 ^ 24 \/ z = - 2 ^ 24) by lia.
  destruct Hz as [-> | ->]; reflexivity.
Qed.

(** Whatever the counts, one pass of the inner loop keeps the
    accumulator's keys metric names and adds the snapshot's total. *)
Lemma sum_snapshot_shape (rc : gmap string Z) (tot : Z) (s : gmap string Z) :
  exists rc', sum_snapshot (kmap (metricName base) rc, tot) s
              = (kmap (metricName base) rc', tot + map_total s).
Proof.
  unfold sum_snapshot.
  refine (map_fold_weak_ind
            (fun r s => exists rc', r = (kmap (metricName base) rc', tot + map_total s))
            _ _ _ _ s).
  - exists rc. unfold map_total. rewrite map_fold_empty. f_equal. lia.
  - intros i x s' r Hi [rc' ->].
    exists (<[i := f32_round (map_get rc' i + f32_round x)]> rc').
    unfold sum_entry. cbn [fst snd].
    rewrite (lookup_kmap (metricName base)), (kmap_insert (metricName base)).
    rewrite map_total_insert_fresh by exact Hi. f_equal. lia.
Qed.

Lemma fold_sum_snapshot_shape (l : list (gmap string Z)) (rc : gmap string Z) (tot : Z) :
  exists rc', fold_left sum_snapshot l (kmap (metricName base) rc, tot)
              = (kmap (metricName base) rc', fold_left (fun acc s => acc + map_total s) l tot).
Proof.
  revert rc tot. induction l as [|s l IH]; intros rc tot; simpl; [now exists rc|].
  destruct (sum_snapshot_shape rc tot s) as [rc' ->]. apply IH.
Qed.

Lemma export_shape (l : list (gmap string Z)) :
  exists rc, export l = <[overallName base := inject_Z (f32_round (total l))]>
                          (kmap (metricName base) (inject_Z <$> rc)).
Proof.
  unfold export.
  assert (Hinit : ((∅ : gmap string Z), 0) = (kmap (metricName base) (∅ : gmap string Z), 0)).
  { now rewrite kmap_empty. }
  rewrite Hinit. destruct (fold_sum_snapshot_shape l ∅ 0) as [rc ->].
  exists rc. unfold total. now rewrite (kmap_fmap (metricName base)).
Qed.

Lemma valuemap_shape (m : t) :
  exists rc tot, (ValueMap m).1 = <[overallName base := inject_Z tot]>
                                    (kmap (metricName base) (inject_Z <$> rc)).
Proof.
  destruct (export_shape (snapshots m ++ [numReq m])) as [rc H].
  exists rc, (f32_round (total (snapshots m ++ [numReq m]))). exact H.
Qed.

(** With non-negative counts that stay within [2^24], one pass of the
    inner loop adds the snapshot's counts exactly. *)
Lemma sum_snapshot_spec (rc : gmap string Z) (tot : Z) (s : gmap string Z) :
  map_Forall (fun _ v => 0 <= v) s -> (forall k, 0 <= map_get rc k) ->
  (forall k, map_get (zmerge rc s) k <= 2 ^ 24) ->
  sum_snapshot (kmap (metricName base) rc, tot) s
  = (kmap (metricName base) (zmerge rc s), tot + map_total s).
Proof.
  intros Hs0 Hrc Hb0. revert Hs0 Hb0. unfold sum_snapshot.
  refine (map_fold_weak_ind
            (fun r s => map_Forall (fun _ v => 0 <= v) s ->
                        (forall k, map_get (zmerge rc s) k <= 2 ^ 24) ->
                        r = (kmap (metricName base) (zmerge rc s), tot + map_total s))
            _ _ _ _ s).
  - intros _ _. rewrite zmerge_empty_r. unfold map_total. rewrite map_fold_empty. f_equal. lia.
  - intros i x s' r Hi IH Hs Hb.
    apply map_Forall_insert in Hs as [Hx Hs]; [|exact Hi].
    assert (Hsi : map_get s' i = 0) by (unfold map_get; now rewrite Hi).
    assert (Hbi : map_get rc i + x <= 2 ^ 24).
    { specialize (Hb i). rewrite map_get_zmerge, map_get_insert_eq in Hb. exact Hb. }
    assert (Hb' : forall k, map_get (zmerge rc s') k <= 2 ^ 24).
    { intros k. rewrite map_get_zmerge. destruct (decide (k = i)) as [->|Hne]; [lia|].
      specialize (Hb k). rewrite map_get_zmerge, map_get_insert_ne in Hb by exact Hne. exact Hb. }
    rewrite (IH Hs Hb'). unfold sum_entry. cbn [fst snd].
    rewrite (lookup_kmap (metricName base)).
    change (default 0 (zmerge rc s' !! i)) with (map_get (zmerge rc s') i).
    rewrite zmerge_insert_fresh by exact Hi.
    rewrite map_total_insert_fresh by exact Hi.
    rewrite (kmap_insert (metricName base)).
    pose proof (Hrc i) as Hri.
    rewrite (f32_round_small x) by lia.
    rewrite map_get_zmerge, Hsi, f32_round_small by lia.
    f_equal. lia.
Qed.

Lemma fold_sum_snapshot_spec (l : list (gmap string Z)) (rc : gmap string Z) (tot : Z) :
  Forall (map_Forall (fun _ v => 0 <= v)) l -> (forall k, 0 <= map_get rc k) ->
  (forall k, map_get (fold_left zmerge l rc) k <= 2 ^ 24) ->
  fold_left sum_snapshot l (kmap (metricName base) rc, tot)
  = (kmap (metricName base) (fold_left zmerge l rc),
     fold_left (fun acc s => acc + map_total s) l tot).
Proof.
  revert rc tot. induction l as [|s l IH]; intros rc tot Hl Hrc Hb; simpl; [reflexivity|].
  inversion Hl as [|? ? Hs Hl']; subst.
  rewrite sum_snapshot_spec; [| exact Hs | exact Hrc |].
  - apply IH; [exact Hl' | | exact Hb].
    intros k. rewrite map_get_zmerge. pose proof (map_get_nonneg s Hs k). specialize (Hrc k). lia.
  - intros k. pose proof (fold_zmerge_mono l (zmerge rc s) k Hl'). specialize (Hb k). simpl in Hb. lia.
Qed.

(** While the total stays within [2^24], every float32 sum is exact and
    the export is the mapping of the merged counts. *)
Lemma export_spec (l : list (gmap string Z)) :
  Forall (map_Forall (fun _ v => 0 <= v)) l -> total l <= 2 ^ 24 ->
  export l = mapping (zsum l) (total l).
Proof.
  intros Hl Ht. unfold export.
  destruct (fold_zmerge_le_total l ∅ 0 Hl) as [Ht0 Hk].
  { intros k. unfold map_get. rewrite lookup_empty. simpl. lia. }
  assert (Hinit : ((∅ : gmap string Z), 0) = (kmap (metricName base) (∅ : gmap string Z), 0)).
  { now rewrite kmap_empty. }
  rewrite Hinit, fold_sum_snapshot_spec; [| exact Hl | |].
  - unfold mapping, zsum, total in *. rewrite f32_round_small by lia.
    now rewrite (kmap_fmap (metricName base)).
  - intros k. unfold map_get. rewrite lookup_empty. simpl. lia.
  - intros k. specialize (Hk k). unfold total in Ht. lia.
Qed.

Lemma map_incr_nonneg (s : gmap string Z) (e : string) :
  map_Forall (fun _ v => 0 <= v) s -> map_Forall (fun _ v => 0 <= v) (map_incr s e).
Proof.
  intros Hs. unfold map_incr. apply map_Forall_insert_2; [|exact Hs].
  pose proof (map_get_nonneg s Hs e). lia.
Qed.

Lemma update_events (p : params) (m m' : t) (e : error) (ep : string) :
  endpointName p = Some ep -> Update p m = Ret m' e ->
  events m' = map_incr (events m) ep /\ events_total m' = events_total m + 1 /\
  (nonneg m -> nonneg m').
Proof.
  intros Hep. unfold Update. rewrite Hep. intros H. injection H as <- _.
  unfold events, events_total, nonneg. simpl. rewrite zmerge_incr, map_total_incr.
  split; [reflexivity | split; [lia|]].
  intros [Hl Hn]. split; [exact Hl | apply map_incr_nonneg, Hn].
Qed.

(** [ValueMap] moves the live map into the ledger: the events since the
    last Clear are unchanged. *)
Lemma valuemap_ledger (m : t) :
  events (ValueMap m).2 = events m /\ events_total (ValueMap m).2 = events_total m /\
  (nonneg m -> nonneg (ValueMap m).2).
Proof.
  unfold ValueMap, doSnapshot, events, events_total, nonneg, zsum, total. simpl.
  rewrite !fold_left_app. simpl.
  rewrite zmerge_empty_r.
  replace (map_total ∅) with 0 by (unfold map_total; now rewrite map_fold_empty).
  split; [reflexivity | split; [lia|]].
  intros [Hl Hn]. split.
  - apply Forall_app. split; [exact Hl | constructor; [exact Hn | constructor]].
  - apply map_Forall_empty.
Qed.

Lemma valuemap_events (m : t) :
  nonneg m -> events_total m <= 2 ^ 24 ->
  (ValueMap m).1 = mapping (events m) (events_total m) /\
  events (ValueMap m).2 = events m /\ events_total (ValueMap m).2 = events_total m /\
  nonneg (ValueMap m).2.
Proof.
  intros Hm Ht. destruct (valuemap_ledger m) as (He & Ht' & Hn).
  split; [| split; [exact He | split; [exact Ht' | exact (Hn Hm)]]].
  destruct Hm as [Hl Hn0].
  assert (Hl' : Forall (map_Forall (fun _ v => 0 <= v)) (snapshots m ++ [numReq m])).
  { apply Forall_app. split; [exact Hl | constructor; [exact Hn0 | constructor]]. }
  assert (Htot : total (snapshots m ++ [numReq m]) = events_total m).
  { unfold total, events_total. rewrite fold_left_app. reflexivity. }
  assert (Hz : zsum (snapshots m ++ [numReq m]) = events m).
  { unfold zsum, events. rewrite fold_left_app. reflexivity. }
  unfold ValueMap, doSnapshot. cbn [fst snapshots numReq].
  rewrite export_spec by (exact Hl' || lia). now rewrite Hz, Htot.
Qed.

(** Exporting again adds an empty snapshot, which changes no sum. *)
Lemma export_snoc_empty (l : list (gmap string Z)) : export (l ++ [∅]) = export l.
Proof.
  unfold export. rewrite fold_left_app. simpl.
  unfold sum_snapshot at 1. rewrite map_fold_empty. reflexivity.
Qed.

End ReqProofs.

(** ** Request-count metric: traces of updates and exports *)
Module ReqTrace.
Import ReqPerEndpoint ReqSummary ReqProofs.

Lemma trace_update_req (u : Z * params) (m : t) :
  is_Some (endpointName u.2) ->
  exists m', Trace.Update u.1 u.2 (MReq m) = Ret (MReq m') None /\
             events m' = map_incr (events m) (resolved u) /\
             events_total m' = events_total m + 1 /\
             (nonneg m -> nonneg m').
Proof.
  intros [ep Hep]. unfold Trace.Update.
  destruct (Update u.2 m) as [m' e| |] eqn:Hu;
    unfold Update in Hu; rewrite Hep in Hu; try discriminate.
  exists m'. injection Hu as Hm <-. split; [now rewrite <-Hm|].
  unfold resolved. rewrite Hep. simpl.
  apply (update_events u.2 m m' None ep Hep). unfold Update. now rewrite Hep, Hm.
Qed.

Lemma export_each_cons (u : Z * params) (ups : list (Z * params)) :
  export_each (u :: ups) = OUpdate u.1 u.2 :: OExport :: export_each ups.
Proof. reflexivity. Qed.

Lemma export_each_spec (ups : list (Z * params)) (m : t) :
  Forall (fun u => is_Some (endpointName u.2)) ups -> ups <> [] ->
  nonneg m -> events_total m + Z.of_nat (length ups) <= 2 ^ 24 ->
  last_export (export_each ups) (MReq m)
  = Some (mapping (fold_left map_incr (map resolved ups) (events m))
                  (events_total m + Z.of_nat (length ups))).
Proof.
  revert m. induction ups as [|u ups IH]; intros m Hok Hne Hm Hb; [congruence|].
  inversion Hok as [|? ? Hu Hups]; subst.
  destruct (trace_update_req u m Hu) as (m1 & Hupd & He1 & Ht1 & Hn1).
  specialize (Hn1 Hm). cbn [length] in Hb.
  unfold last_export. rewrite export_each_cons. cbn [run]. rewrite Hupd.
  cbn [run Reporter.ValueMap].
  destruct (ValueMap m1) as [vm m2] eqn:Hvm.
  destruct (valuemap_events m1 Hn1 ltac:(lia)) as (Hv & He2 & Ht2 & Hn2).
  rewrite Hvm in Hv, He2, Ht2, Hn2.
  simpl in Hv, He2, Ht2, Hn2. subst vm.
  destruct ups as [|u' ups'].
  - simpl. rewrite He1, Ht1. reflexivity.
  - cbn [length] in Hb.
    specialize (IH m2 Hups ltac:(discriminate) Hn2 ltac:(cbn [length]; lia)).
    unfold last_export in IH.
    destruct (run (export_each (u' :: ups')) (MReq m2)) as [[a vms]|]; [|discriminate].
    destruct vms as [|v vms]; [discriminate|].
    change (last (mapping (events m1) (events_total m1) :: v :: vms)) with (last (v :: vms)).
    rewrite IH, He2, Ht2, He1, Ht1. cbn [map fold_left length]. do 2 f_equal. lia.
Qed.

Lemma run_updates_spec (ups : list (Z * params)) (ops : list op) (m : t) :
  Forall (fun u => is_Some (endpointName u.2)) ups -> nonneg m ->
  exists m', run (map (fun u => OUpdate u.1 u.2) ups ++ ops) (MReq m) = run ops (MReq m') /\
             events m' = fold_left map_incr (map resolved ups) (events m) /\
             events_total m' = events_total m + Z.of_nat (length ups) /\
             nonneg m'.
Proof.
  revert m. induction ups as [|u ups IH]; intros m Hok Hm.
  - exists m. simpl. split; [reflexivity | split; [reflexivity | split; [lia | exact Hm]]].
  - inversion Hok as [|? ? Hu Hups]; subst.
    destruct (trace_update_req u m Hu) as (m1 & Hupd & He1 & Ht1 & Hn1).
    destruct (IH m1 Hups (Hn1 Hm)) as (m2 & Hrun & He2 & Ht2 & Hn2).
    exists m2. cbn [map app run]. rewrite Hupd, Hrun, He2, Ht2, He1, Ht1. split; [reflexivity|].
    split; [reflexivity | split; [cbn [length]; lia | exact Hn2]].
Qed.

Lemma export_once_spec (ups : list (Z * params)) (m : t) :
  Forall (fun u => is_Some (endpointName u.2)) ups ->
  nonneg m -> events_total m + Z.of_nat (length ups) <= 2 ^ 24 ->
  last_export (export_once ups) (MReq m)
  = Some (mapping (fold_left map_incr (map resolved ups) (events m))
                  (events_total m + Z.of_nat (length ups))).
Proof.
  intros Hok Hm Hb. destruct (run_updates_spec ups [OExport] m Hok Hm) as (m' & Hrun & He & Ht & Hn).
  unfold last_export, export_once. rewrite Hrun. cbn [run Reporter.ValueMap].
  destruct (ValueMap m') as [vm m''] eqn:Hvm.
  destruct (valuemap_events m' Hn ltac:(lia)) as (Hv & _). rewrite Hvm in Hv. simpl in Hv.
  simpl. now rewrite Hv, He, Ht.
Qed.

End ReqTrace.

(** ** C1: cumulative export *)

(** C1 (amended).  For the request-count metric, from any state whose
    counts are non-negative, a non-empty sequence of updates (each with no
    endpoint attribute or a string one) followed either by an export after
    every update or by a single export after all of them ends with the
    same export mapping, the mapping of all events since the last Clear
    (the retained ledger and the live map, plus these updates), as long as
    those events number at most [2^24], below which every float32 sum of
    the export is exact. *)
Theorem req_export_cumulative (m : ReqPerEndpoint.t) (ups : list (Z * params)) :
  ups <> [] -> Forall (fun u => is_Some (endpointName u.2)) ups ->
  ReqSummary.nonneg m ->
  ReqSummary.events_total m + Z.of_nat (length ups) <= 2 ^ 24 ->
  let final := ReqSummary.mapping
                 (fold_left map_incr (map ReqSummary.resolved ups) (ReqSummary.events m))
                 (ReqSummary.events_total m + Z.of_nat (length ups)) in
  last_export (export_each ups) (MReq m) = Some final /\
  last_export (export_once ups) (MReq m) = Some final.
Proof.
  intros Hne Hok Hm Hb final. split.
  - exact (ReqTrace.export_each_spec ups m Hok Hne Hm Hb).
  - exact (ReqTrace.export_once_spec ups m Hok Hm Hb).
Qed.

Lemma req_export_cumulative_witness :
  let ups := [(0, bag_ep "log"); (0, bag_ep "log")] in
  ups <> [] /\ Forall (fun u => is_Some (endpointName u.2)) ups /\
  ReqSummary.nonneg ReqPerEndpoint.New /\
  ReqSummary.events_total ReqPerEndpoint.New + Z.of_nat (length ups) <= 2 ^ 24 /\
  last_export (export_each ups) (MReq ReqPerEndpoint.New)
  = last_export (export_once ups) (MReq ReqPerEndpoint.New).
Proof.
  intros ups.
  assert (Hne : ups <> []) by discriminate.
  assert (Hok : Forall (fun u => is_Some (endpointName u.2)) ups).
  { constructor; [eexists; reflexivity | constructor; [eexists; reflexivity | constructor]]. }
  assert (Hm : ReqSummary.nonneg ReqPerEndpoint.New).
  { split; [constructor|]. apply map_Forall_insert_2; [lia | apply map_Forall_empty]. }
  assert (Hb : ReqSummary.events_total ReqPerEndpoint.New + Z.of_nat (length ups) <= 2 ^ 24).
  { vm_compute. discriminate. }
  split; [exact Hne | split; [exact Hok | split; [exact Hm | split; [exact Hb |]]]].
  destruct (req_export_cumulative ReqPerEndpoint.New ups Hne Hok Hm Hb) as [H1 H2].
  rewrite H1, H2. reflexivity.
Defined.

(** ** Latency metric: what an export leaves behind *)
Module RespProofs.
Import ResponseTimePerEndpoint.

(** Export resets the request count of every endpoint of
    [responseTimeMap] and keeps the set of endpoints. *)
Lemma valuemap_resets (m : t) :
  let m1 := (ValueMap m).2 in
  (forall ep, is_Some (responseTimeMap m1 !! ep) <-> is_Some (responseTimeMap m !! ep)) /\
  (forall ep, is_Some (responseTimeMap m !! ep) -> numReq m1 !! ep = Some 0).
Proof.
  unfold ValueMap.
  assert (H : forall (s : gmap string (list Q)),
    let r := map_fold value_entry (∅, 0%Q, 0, m) s in
    (forall ep, is_Some (responseTimeMap r.2 !! ep)
                <-> is_Some (responseTimeMap m !! ep) \/ is_Some (s !! ep)) /\
    (forall ep, is_Some (s !! ep) -> numReq r.2 !! ep = Some 0)).
  { intros s. apply (map_fold_weak_ind (fun r s =>
      (forall ep, is_Some (responseTimeMap r.2 !! ep)
                  <-> is_Some (responseTimeMap m !! ep) \/ is_Some (s !! ep)) /\
      (forall ep, is_Some (s !! ep) -> numReq r.2 !! ep = Some 0))).
    - split; [|intros ep [? Hx]; by rewrite lookup_empty in Hx].
      intros ep. rewrite lookup_empty. split; [tauto|]. intros [H|[? H]]; [exact H | discriminate].
    - intros i x s' [[[metrics rt] n] m'] Hi [Hdom Hreq]. simpl in *. split.
      + intros ep. destruct (decide (ep = i)) as [->|Hne].
        * rewrite !lookup_insert_eq. split; [intros _; right; eauto | intros _; eauto].
        * rewrite !lookup_insert_ne by congruence. apply Hdom.
      + intros ep Hep. destruct (decide (ep = i)) as [->|Hne].
        * rewrite lookup_insert_eq. reflexivity.
        * rewrite lookup_insert_ne in Hep by congruence.
          rewrite lookup_insert_ne by congruence. exact (Hreq ep Hep). }
  destruct (H (responseTimeMap m)) as [Hdom Hreq].
  destruct (map_fold value_entry (∅, 0%Q, 0, m) (responseTimeMap m))
    as [[[metrics rt] n] m'] eqn:E.
  simpl in *. split; [|exact Hreq].
  intros ep. rewrite Hdom. tauto.
Qed.

(** An export from a state where every endpoint has request count 0
    reports 0 everywhere. *)
Lemma valuemap_zero (m : t) :
  (forall ep, is_Some (responseTimeMap m !! ep) -> map_get (numReq m) ep = 0) ->
  forall k v, (ValueMap m).1 !! k = Some v -> v = 0%Q.
Proof.
  intros Hz. unfold ValueMap.
  assert (H : forall (s : gmap string (list Q)),
    (forall ep, is_Some (s !! ep) -> map_get (numReq m) ep = 0) ->
    let r := map_fold value_entry (∅, 0%Q, 0, m) s in
    (forall k v, r.1.1.1 !! k = Some v -> v = 0%Q) /\ r.1.2 = 0 /\
    (forall ep, map_get (numReq r.2) ep = map_get (numReq m) ep \/
                map_get (numReq r.2) ep = 0)).
  { intros s. apply (map_fold_weak_ind (fun r s =>
      (forall ep, is_Some (s !! ep) -> map_get (numReq m) ep = 0) ->
      (forall k v, r.1.1.1 !! k = Some v -> v = 0%Q) /\ r.1.2 = 0 /\
      (forall ep, map_get (numReq r.2) ep = map_get (numReq m) ep \/
                  map_get (numReq r.2) ep = 0))).
    - intros _. simpl. split; [intros k v Hk; by rewrite lookup_empty in Hk|].
      split; [reflexivity | intros ep; left; reflexivity].
    - intros i x s' [[[metrics rt] n] m'] Hi IH Hs.
      destruct IH as (Hm & Hn & Hr).
      { intros ep Hep. apply Hs. destruct (decide (ep = i)) as [->|Hne].
        - rewrite lookup_insert_eq. eauto.
        - rewrite lookup_insert_ne by congruence. exact Hep. }
      simpl in Hm, Hn, Hr. subst n.
      assert (Hi0 : map_get (numReq m') i = 0).
      { destruct (Hr i) as [-> | ->]; [|reflexivity].
        apply Hs. rewrite lookup_insert_eq. eauto. }
      unfold value_entry. rewrite Hi0. simpl. split; [|split].
      + intros k v Hk. destruct (decide (k = metricName base i)) as [->|Hne].
        * rewrite lookup_insert_eq in Hk. now injection Hk as <-.
        * rewrite lookup_insert_ne in Hk by congruence. exact (Hm k v Hk).
      + reflexivity.
      + intros ep. destruct (decide (ep = i)) as [->|Hne].
        * right. unfold map_get. rewrite lookup_insert_eq. reflexivity.
        * unfold map_get. rewrite lookup_insert_ne by congruence. exact (Hr ep). }
  destruct (H (responseTimeMap m) Hz) as (Hm & Hn & _).
  destruct (map_fold value_entry (∅, 0%Q, 0, m) (responseTimeMap m))
    as [[[metrics rt] n] m'] eqn:E.
  simpl in *. subst n. simpl. intros k v Hk.
  destruct (decide (k = overallName base)) as [->|Hne].
  - rewrite lookup_insert_eq in Hk. now injection Hk as <-.
  - rewrite lookup_insert_ne in Hk by congruence. exact (Hm k v Hk).
Qed.

End RespProofs.

(** ** C3: Clear right after an export *)

(** C3 (amended).  For the request-count and latency metrics, in every
    state, an export followed by Clear makes the next export (with no
    update in between) report 0 for every entry; Clear itself leaves the
    live accumulator alone, so updates made since the last export are not
    discarded by it. *)
Theorem clear_after_export_resets :
  (forall m : ReqPerEndpoint.t,
     let m1 := ReqPerEndpoint.Clear (ReqPerEndpoint.ValueMap m).2 in
     map_Forall (fun _ v => v = 0%Q) (ReqPerEndpoint.ValueMap m1).1 /\
     ReqPerEndpoint.numReq (ReqPerEndpoint.Clear m) = ReqPerEndpoint.numReq m) /\
  (forall m : ResponseTimePerEndpoint.t,
     let m1 := ResponseTimePerEndpoint.Clear (ResponseTimePerEndpoint.ValueMap m).2 in
     map_Forall (fun _ v => v = 0%Q) (ResponseTimePerEndpoint.ValueMap m1).1 /\
     ResponseTimePerEndpoint.Clear m = m).
Proof.
  split.
  - intros m m1. split; [|reflexivity].
    assert (E : (ReqPerEndpoint.ValueMap m1).1
                = <[overallName ReqPerEndpoint.base := 0%Q]> ∅) by reflexivity.
    rewrite E. intros k v Hk.
    destruct (decide (k = overallName ReqPerEndpoint.base)) as [->|Hne].
    + rewrite lookup_insert_eq in Hk. now injection Hk as <-.
    + rewrite lookup_insert_ne, lookup_empty in Hk by congruence. discriminate.
  - intros m m1. split; [|reflexivity].
    destruct (RespProofs.valuemap_resets m) as [Hdom Hreq].
    intros k v Hk. refine (RespProofs.valuemap_zero m1 _ k v Hk).
    intros ep Hep. unfold m1, ResponseTimePerEndpoint.Clear in *.
    apply Hdom in Hep. unfold map_get. now rewrite (Hreq ep Hep).
Qed.

(** ** Error-rate metric: invariants and Update *)
Module ErrProofs.
Import ErrorRatePerEndpoint Reach.

Lemma reachable_inv (m : t) :
  er_reachable m -> numReq m = 1%positive /\ errorCount m = 2%positive /\ locked m = false.
Proof.
  induction 1 as [| p m m' e _ IH Hu | m vm m' _ IH Hv | m _ IH].
  - repeat split.
  - destruct IH as (Hn & He & Hl). unfold Update in Hu.
    destruct (endpointName p); [|discriminate]. rewrite Hl in Hu.
    destruct (p !! "statusCode") as [[| code |]|]; try discriminate.
    injection Hu as <- _. simpl. repeat split; assumption.
  - destruct IH as (Hn & He & Hl). unfold ValueMap, doSnapshot in Hv. rewrite Hl in Hv.
    injection Hv as _ <-. simpl. repeat split; assumption.
  - exact IH.
Qed.

Lemma update_spec (p : params) (m : t) (ep : string) (code : Z) :
  er_reachable m -> endpointName p = Some ep -> p !! "statusCode" = Some (VInt code) ->
  exists m', Update p m = Ret m' None /\
    er_requests m' = map_incr (er_requests m) ep /\
    er_errors m' = (if (400 <=? code)%Z then map_incr (er_errors m) ep else er_errors m).
Proof.
  intros Hr Hep Hcode. destruct (reachable_inv m Hr) as (Hn & He & Hl).
  unfold Update. rewrite Hep, Hl, Hcode.
  eexists. split; [reflexivity|].
  unfold er_requests, er_errors, incr, load. simpl. rewrite Hn, He.
  destruct (400 <=? code); simpl; split; by simplify_map_eq.
Qed.

End ErrProofs.

(** ** C7: error-rate Update *)

(** C7.  In every reachable state of the error-rate metric, an Update
    whose endpoint resolves to [ep] and whose bag holds an integer status
    code returns without error, adds exactly 1 to the request count of
    [ep], adds 1 to its error count iff the code is at least 400, and
    leaves the counts of every other endpoint unchanged. *)
Theorem error_rate_update_counts (p : params) (m : ErrorRatePerEndpoint.t)
    (ep : string) (code : Z) :
  Reach.er_reachable m -> endpointName p = Some ep -> p !! "statusCode" = Some (VInt code) ->
  exists m', ErrorRatePerEndpoint.Update p m = Ret m' None /\
    Reach.er_requests m' !! ep = Some (map_get (Reach.er_requests m) ep + 1) /\
    map_get (Reach.er_errors m') ep
      = map_get (Reach.er_errors m) ep + (if (400 <=? code)%Z then 1 else 0) /\
    (forall ep', ep' <> ep ->
       Reach.er_requests m' !! ep' = Reach.er_requests m !! ep' /\
       Reach.er_errors m' !! ep' = Reach.er_errors m !! ep').
Proof.
  intros Hr Hep Hcode.
  destruct (ErrProofs.update_spec p m ep code Hr Hep Hcode) as (m' & Hu & Hreq & Herr).
  exists m'. split; [exact Hu|]. rewrite Hreq, Herr. unfold map_incr.
  split; [now rewrite lookup_insert_eq|]. split.
  - destruct (400 <=? code); [unfold map_get at 1; rewrite lookup_insert_eq; simpl; lia | lia].
  - intros ep' Hne. split; [now rewrite lookup_insert_ne by congruence|].
    destruct (400 <=? code); [now rewrite lookup_insert_ne by congruence | reflexivity].
Qed.

Lemma error_rate_update_counts_witness :
  Reach.er_reachable ErrorRatePerEndpoint.New /\
  endpointName (bag_status "log" 404) = Some "log" /\
  bag_status "log" 404 !! "statusCode" = Some (VInt 404) /\
  exists m', ErrorRatePerEndpoint.Update (bag_status "log" 404) ErrorRatePerEndpoint.New
             = Ret m' None /\
    Reach.er_requests m' !! "log"
      = Some (map_get (Reach.er_requests ErrorRatePerEndpoint.New) "log" + 1) /\
    map_get (Reach.er_errors m') "log"
      = map_get (Reach.er_errors ErrorRatePerEndpoint.New) "log" + 1.
Proof.
  assert (Hr : Reach.er_reachable ErrorRatePerEndpoint.New) by constructor.
  assert (Hep : endpointName (bag_status "log" 404) = Some "log") by reflexivity.
  assert (Hc : bag_status "log" 404 !! "statusCode" = Some (VInt 404)) by reflexivity.
  split; [exact Hr | split; [exact Hep | split; [exact Hc |]]].
  destruct (error_rate_update_counts (bag_status "log" 404) ErrorRatePerEndpoint.New
              "log" 404 Hr Hep Hc) as (m' & Hu & Hreq & Herr & _).
  exists m'. split; [exact Hu | split; [exact Hreq | exact Herr]].
Defined.

(** ** C9: the endpoint an Update is recorded under *)

(** C9.  A bag without an endpoint attribute resolves to ["other"]; and
    for every metric, an Update whose endpoint resolves to [ep] (and
    whose other required attribute is present) succeeds and records the
    event in [ep]'s bucket, creating it with count 1 when [ep] was never
    seen: no registration is needed. *)
Theorem updates_record_under_resolved_endpoint :
  (forall p : params, p !! "endpointName" = None -> endpointName p = Some unknownEndpoint) /\
  (forall (p : params) (m : ReqPerEndpoint.t) (ep : string),
     endpointName p = Some ep ->
     exists m', ReqPerEndpoint.Update p m = Ret m' None /\
       ReqPerEndpoint.numReq m' !! ep = Some (map_get (ReqPerEndpoint.numReq m) ep + 1)) /\
  (forall (p : params) (m : ErrorRatePerEndpoint.t) (ep : string) (code : Z),
     Reach.er_reachable m -> endpointName p = Some ep ->
     p !! "statusCode" = Some (VInt code) ->
     exists m', ErrorRatePerEndpoint.Update p m = Ret m' None /\
       Reach.er_requests m' !! ep = Some (map_get (Reach.er_requests m) ep + 1)) /\
  (forall (now : Z) (p : params) (m : ResponseTimePerEndpoint.t) (ep : string) (startTime : Z),
     endpointName p = Some ep -> p !! "reqStartTime" = Some (VTime startTime) ->
     exists m', ResponseTimePerEndpoint.Update now p m = Ret m' None /\
       ResponseTimePerEndpoint.numReq m' !! ep
         = Some (map_get (ResponseTimePerEndpoint.numReq m) ep + 1) /\
       ResponseTimePerEndpoint.responseTimeMap m' !! ep
         = Some (default [] (ResponseTimePerEndpoint.responseTimeMap m !! ep)
                 ++ [(inject_Z (now - startTime) / inject_Z 1000000)%Q])).
Proof.
  split; [|split; [|split]].
  - intros p Hp. unfold endpointName. now rewrite Hp.
  - intros p m ep Hep. unfold ReqPerEndpoint.Update. rewrite Hep.
    eexists. split; [reflexivity|]. simpl. unfold map_incr. now rewrite lookup_insert_eq.
  - intros p m ep code Hr Hep Hcode.
    destruct (ErrProofs.update_spec p m ep code Hr Hep Hcode) as (m' & Hu & Hreq & _).
    exists m'. split; [exact Hu|]. rewrite Hreq. unfold map_incr. now rewrite lookup_insert_eq.
  - intros now p m ep startTime Hep Hst. unfold ResponseTimePerEndpoint.Update.
    rewrite Hst, Hep. eexists. split; [reflexivity|]. simpl.
    unfold map_incr. rewrite !lookup_insert_eq. split; reflexivity.
Qed.

(** ** Keys produced by the export loops *)
Module KeyProofs.

(** A loop over a map whose body never removes a key of the accumulator
    and always adds the key [g i] for the visited key [i]. *)
Lemma map_fold_keys {A B V : Type} (f : string -> A -> B -> B) (proj : B -> gmap string V)
    (g : string -> string) (b : B) (s : gmap string A) :
  (forall i x r k, is_Some (proj r !! k) -> is_Some (proj (f i x r) !! k)) ->
  (forall i x r, is_Some (proj (f i x r) !! g i)) ->
  forall k, (is_Some (proj b !! k) -> is_Some (proj (map_fold f b s) !! k)) /\
            (is_Some (s !! k) -> is_Some (proj (map_fold f b s) !! g k)).
Proof.
  intros Hkeep Hnew.
  apply (map_fold_weak_ind (fun r s => forall k,
           (is_Some (proj b !! k) -> is_Some (proj r !! k)) /\
           (is_Some (s !! k) -> is_Some (proj r !! g k)))).
  - intros k. split; [tauto|]. rewrite lookup_empty. intros [? H]; discriminate.
  - intros i x s' r Hi IH k. split.
    + intros Hb. apply Hkeep, (IH k), Hb.
    + intros Hs. destruct (decide (k = i)) as [->|Hne]; [apply Hnew|].
      rewrite lookup_insert_ne in Hs by congruence. apply Hkeep, (IH k), Hs.
Qed.

Lemma insert_keeps_key {V : Type} (m : gmap string V) (i k : string) (v : V) :
  is_Some (m !! k) -> is_Some (<[i:=v]> m !! k).
Proof.
  intros Hk. destruct (decide (k = i)) as [->|Hne].
  - rewrite lookup_insert_eq. eauto.
  - now rewrite lookup_insert_ne by congruence.
Qed.

Lemma insert_has_key {V : Type} (m : gmap string V) (i : string) (v : V) :
  is_Some (<[i:=v]> m !! i).
Proof. rewrite lookup_insert_eq. eauto. Qed.

Lemma err_other_ne_overall :
  metricName ErrorRatePerEndpoint.base unknownEndpoint <> overallName ErrorRatePerEndpoint.base.
Proof. discriminate. Qed.

Lemma resp_other_ne_overall :
  metricName ResponseTimePerEndpoint.base unknownEndpoint
  <> overallName ResponseTimePerEndpoint.base.
Proof. discriminate. Qed.

End KeyProofs.

(** ** Keys of the error-rate and latency exports *)
Module ExportKeys.
Import KeyProofs.

Lemma err_export_keys (h : gmap positive (gmap string Z)) (l : list (positive * positive))
    (R E : positive) :
  is_Some (ErrorRatePerEndpoint.load h E !! unknownEndpoint) ->
  let vm := ErrorRatePerEndpoint.export h (l ++ [(R, E)]) in
  is_Some (vm !! overallName ErrorRatePerEndpoint.base) /\
  is_Some (vm !! metricName ErrorRatePerEndpoint.base unknownEndpoint).
Proof.
  intros Hother vm. unfold vm, ErrorRatePerEndpoint.export. rewrite fold_left_app.
  cbn [fold_left].
  set (acc := fold_left (ErrorRatePerEndpoint.sum_snapshot h) l (∅, ∅)).
  assert (H1 : is_Some ((ErrorRatePerEndpoint.sum_snapshot h acc (R, E)).1 !! unknownEndpoint)).
  { unfold ErrorRatePerEndpoint.sum_snapshot.
    apply (map_fold_keys _ fst (fun k => k) acc (ErrorRatePerEndpoint.load h E));
      [| | exact Hother].
    - intros i x r k Hk. simpl. now apply insert_keeps_key.
    - intros i x r. simpl. apply insert_has_key. }
  destruct (ErrorRatePerEndpoint.sum_snapshot h acc (R, E)) as [errorCount requestCount].
  simpl in H1.
  assert (H2 : is_Some ((map_fold (ErrorRatePerEndpoint.rate_entry requestCount)
                          (∅, 0%Z, 0%Z) errorCount).1.1
                        !! metricName ErrorRatePerEndpoint.base unknownEndpoint)).
  { apply (map_fold_keys _ (fun r => r.1.1) (metricName ErrorRatePerEndpoint.base) _ errorCount);
      [| | exact H1].
    - intros i x [[er a] c] k Hk. unfold ErrorRatePerEndpoint.rate_entry. simpl in *.
      destruct (Qle_bool _ _); simpl; repeat apply insert_keeps_key; exact Hk.
    - intros i x [[er a] c]. unfold ErrorRatePerEndpoint.rate_entry.
      destruct (Qle_bool _ _); simpl; apply insert_has_key. }
  destruct (map_fold (ErrorRatePerEndpoint.rate_entry requestCount) (∅, 0%Z, 0%Z) errorCount)
    as [[er a] c]. simpl in H2.
  destruct (0 <? c)%Z; split; try apply insert_has_key;
    repeat (apply insert_keeps_key); exact H2.
Qed.

Lemma err_valuemap_keys (m m' : ErrorRatePerEndpoint.t) (vm : gmap string Q) :
  ErrorRatePerEndpoint.ValueMap m = Some (vm, m') ->
  is_Some (vm !! overallName ErrorRatePerEndpoint.base) /\
  is_Some (vm !! metricName ErrorRatePerEndpoint.base unknownEndpoint).
Proof.
  unfold ErrorRatePerEndpoint.ValueMap, ErrorRatePerEndpoint.doSnapshot.
  destruct (ErrorRatePerEndpoint.locked m); [discriminate|].
  intros H. injection H as <- _. apply err_export_keys.
  unfold ErrorRatePerEndpoint.init, ErrorRatePerEndpoint.write, ErrorRatePerEndpoint.load.
  simpl. rewrite lookup_insert_eq. simpl. apply insert_has_key.
Qed.

Lemma rt_reachable_other (m : ResponseTimePerEndpoint.t) :
  Reach.rt_reachable m ->
  is_Some (ResponseTimePerEndpoint.responseTimeMap m !! unknownEndpoint).
Proof.
  induction 1 as [| now p m m' e _ IH Hu | m _ IH | m _ IH].
  - apply insert_has_key.
  - unfold ResponseTimePerEndpoint.Update in Hu.
    destruct (p !! "reqStartTime") as [[| |st]|]; try discriminate.
    + destruct (endpointName p); [|discriminate].
      injection Hu as <- _. simpl. now apply insert_keeps_key.
    + injection Hu as <- _. exact IH.
  - destruct (RespProofs.valuemap_resets m) as [Hdom _]. now apply Hdom.
  - exact IH.
Qed.

Lemma rt_valuemap_keys (m : ResponseTimePerEndpoint.t) :
  is_Some (ResponseTimePerEndpoint.responseTimeMap m !! unknownEndpoint) ->
  is_Some ((ResponseTimePerEndpoint.ValueMap m).1 !! overallName ResponseTimePerEndpoint.base) /\
  is_Some ((ResponseTimePerEndpoint.ValueMap m).1
             !! metricName ResponseTimePerEndpoint.base unknownEndpoint).
Proof.
  intros Hother. unfold ResponseTimePerEndpoint.ValueMap.
  assert (H2 : is_Some ((map_fold ResponseTimePerEndpoint.value_entry (∅, 0%Q, 0%Z, m)
                           (ResponseTimePerEndpoint.responseTimeMap m)).1.1.1
                        !! metricName ResponseTimePerEndpoint.base unknownEndpoint)).
  { apply (map_fold_keys _ (fun r => r.1.1.1) (metricName ResponseTimePerEndpoint.base));
      [| | exact Hother].
    - intros i x [[[mt a] n] mm] k Hk. unfold ResponseTimePerEndpoint.value_entry. simpl in *.
      destruct (Qle_bool _ _); simpl; repeat apply insert_keeps_key; exact Hk.
    - intros i x [[[mt a] n] mm]. unfold ResponseTimePerEndpoint.value_entry.
      destruct (Qle_bool _ _); simpl; apply insert_has_key. }
  destruct (map_fold ResponseTimePerEndpoint.value_entry (∅, 0%Q, 0%Z, m)
              (ResponseTimePerEndpoint.responseTimeMap m)) as [[[mt a] n] mm].
  simpl in H2. simpl.
  destruct (0 <? n)%Z; split; try apply insert_has_key;
    repeat (apply insert_keeps_key); exact H2.
Qed.

End ExportKeys.

(** C10 (amended): every export holds the overall entry.  The error-rate
    export, and the latency export in every reachable state, also hold
    the entry of the ["other"] endpoint; the request-count export holds it
    on a fresh metric (it can be lost after Export, Clear, Export, see
    [req_other_entry_missing_after_clear]).  On a fresh metric of each
    kind both entries are 0. *)
Theorem export_has_overall_and_other :
  (forall m : ReqPerEndpoint.t,
     is_Some ((ReqPerEndpoint.ValueMap m).1 !! overallName ReqPerEndpoint.base)) /\
  (forall (m m' : ErrorRatePerEndpoint.t) (vm : gmap string Q),
     ErrorRatePerEndpoint.ValueMap m = Some (vm, m') ->
     is_Some (vm !! overallName ErrorRatePerEndpoint.base) /\
     is_Some (vm !! metricName ErrorRatePerEndpoint.base unknownEndpoint)) /\
  (forall m : ResponseTimePerEndpoint.t,
     Reach.rt_reachable m ->
     is_Some ((ResponseTimePerEndpoint.ValueMap m).1 !! overallName ResponseTimePerEndpoint.base) /\
     is_Some ((ResponseTimePerEndpoint.ValueMap m).1
                !! metricName ResponseTimePerEndpoint.base unknownEndpoint)) /\
  ((ReqPerEndpoint.ValueMap ReqPerEndpoint.New).1 !! overallName ReqPerEndpoint.base = Some 0%Q /\
   (ReqPerEndpoint.ValueMap ReqPerEndpoint.New).1
     !! metricName ReqPerEndpoint.base unknownEndpoint = Some 0%Q) /\
  (match ErrorRatePerEndpoint.ValueMap ErrorRatePerEndpoint.New with
   | Some (vm, _) =>
       vm !! overallName ErrorRatePerEndpoint.base = Some 0%Q /\
       vm !! metricName ErrorRatePerEndpoint.base unknownEndpoint = Some 0%Q
   | None => False
   end) /\
  ((ResponseTimePerEndpoint.ValueMap ResponseTimePerEndpoint.New).1
     !! overallName ResponseTimePerEndpoint.base = Some 0%Q /\
   (ResponseTimePerEndpoint.ValueMap ResponseTimePerEndpoint.New).1
     !! metricName ResponseTimePerEndpoint.base unknownEndpoint = Some 0%Q).
Proof.
  split; [|split; [|split; [|split; [|split]]]].
  - intros m. destruct (ReqProofs.valuemap_shape m) as (rc & tot & ->).
    rewrite lookup_insert_eq. eauto.
  - apply ExportKeys.err_valuemap_keys.
  - intros m Hm. apply ExportKeys.rt_valuemap_keys, ExportKeys.rt_reachable_other, Hm.
  - vm_compute. split; reflexivity.
  - vm_compute. split; reflexivity.
  - vm_compute. split; reflexivity.
Qed.

(** ** The reporter's cycle *)
Module SendProofs.
Import Reporter.

Lemma valuemap_ledger_kept (a a' : AppMetric) (vm : gmap string Q) :
  Reporter.ValueMap a = Some (vm, a') -> Reach.ledger_kept a a'.
Proof.
  destruct a as [m|m|m]; simpl.
  - intros H. injection H as _ <-. simpl. eexists. reflexivity.
  - unfold ErrorRatePerEndpoint.ValueMap, ErrorRatePerEndpoint.doSnapshot.
    destruct (ErrorRatePerEndpoint.locked m); [discriminate|].
    intros H. injection H as _ <-. simpl. eexists. reflexivity.
  - destruct (ResponseTimePerEndpoint.ValueMap m). intros H. injection H as _ <-. exact I.
Qed.

Lemma extract_spec (ms ms' : list AppMetric) (payload payload' : gmap string Q) :
  extract ms payload = Some (ms', payload') ->
  Forall2 (fun a a' => exists vm, Reporter.ValueMap a = Some (vm, a')) ms ms'.
Proof.
  revert payload ms' payload'. induction ms as [|a ms IH]; intros payload ms' payload' H; simpl in H.
  - injection H as <- _. constructor.
  - destruct (Reporter.ValueMap a) as [[vm a']|] eqn:Ha; [|discriminate].
    destruct (extract ms (vm ∪ payload)) as [[ms'' p]|] eqn:He; [|discriminate].
    injection H as <- _. constructor; [eauto | exact (IH _ _ _ He)].
Qed.

End SendProofs.

(** C2 (amended): in every cycle, whatever the outcome of the delivery
    (network error, status 200 or another status), [sendMetrics] calls
    [ValueMap] on every metric and never [Clear]: the metrics' new states
    and the payload do not depend on the outcome, which only reaches the
    log, and every snapshot retained before the cycle is still retained
    after it. *)
Theorem send_exports_without_clear (resp : response) (ms ms' : list AppMetric)
    (payload : gmap string Q) (logs : list string) :
  sendMetrics resp ms = Some (ms', payload, logs) ->
  Forall2 (fun a a' => exists vm, Reporter.ValueMap a = Some (vm, a')) ms ms' /\
  Forall2 Reach.ledger_kept ms ms' /\
  logs = doRequest resp /\
  (forall resp' : response, sendMetrics resp' ms = Some (ms', payload, doRequest resp')).
Proof.
  unfold sendMetrics.
  destruct (extract ms ∅) as [[ms'' p]|] eqn:He; [|discriminate].
  intros H. injection H as <- <- <-.
  pose proof (SendProofs.extract_spec _ _ _ _ He) as Hf.
  split; [exact Hf|]. split; [|split; [reflexivity|intros; reflexivity]].
  eapply Forall2_impl; [exact Hf|].
  intros a a' [vm Ha]. eapply SendProofs.valuemap_ledger_kept; exact Ha.
Qed.

Lemma send_exports_without_clear_witness :
  match sendMetrics NetworkError [MReq ReqPerEndpoint.New; MResp ResponseTimePerEndpoint.New] with
  | Some (ms', payload, logs) => logs = doRequest NetworkError
  | None => False
  end.
Proof.
  destruct (sendMetrics NetworkError [MReq ReqPerEndpoint.New; MResp ResponseTimePerEndpoint.New])
    as [[[ms' payload] logs]|] eqn:E.
  - exact (proj1 (proj2 (proj2 (send_exports_without_clear NetworkError
      [MReq ReqPerEndpoint.New; MResp ResponseTimePerEndpoint.New] ms' payload logs E)))).
  - assert (Hb : match sendMetrics NetworkError
                   [MReq ReqPerEndpoint.New; MResp ResponseTimePerEndpoint.New] with
                 | Some _ => true | None => false end = true)
      by (vm_compute; reflexivity).
    rewrite E in Hb. discriminate Hb.
Defined.

(** * Further properties of the package *)

(** ** Request parameter bags *)
Module BagProofs.
Import Package.

Lemma collected_lookups (ep : string) (start code : Z) :
  let p := CollectParamsOnReqEnd (DefaultReqParams ep start) code in
  endpointName p = Some ep /\
  p !! "statusCode" = Some (VInt code) /\
  p !! "reqStartTime" = Some (VTime start).
Proof.
  unfold CollectParamsOnReqEnd, DefaultReqParams, endpointName.
  repeat split; by simplify_map_eq.
Qed.

Lemma default_lookups (ep : string) (start : Z) :
  let p := DefaultReqParams ep start in
  endpointName p = Some ep /\
  p !! "statusCode" = None /\
  p !! "reqStartTime" = Some (VTime start).
Proof.
  unfold DefaultReqParams, endpointName.
  repeat split; by simplify_map_eq.
Qed.

End BagProofs.

(** X2: a request whose bag was built by [DefaultReqParams] and completed
    by [CollectParamsOnReqEnd], reported with [UpdateMetricsOnReqEnd] to
    an engine holding the three default metrics (the error-rate one in a
    reachable state), returns normally and is recorded by all three: one
    more request for [ep] in each, one more error iff the status code is
    at least 400, and the elapsed milliseconds appended to [ep]'s
    latencies. *)
Theorem request_end_updates_default_metrics (now start code : Z) (ep : string)
    (r : Package.Reporter) (m1 : ReqPerEndpoint.t) (m2 : ErrorRatePerEndpoint.t)
    (m3 : ResponseTimePerEndpoint.t) :
  Package.Metrics r = [MReq m1; MErr m2; MResp m3] ->
  Reach.er_reachable m2 ->
  exists m1' m2' m3',
    Package.UpdateMetricsOnReqEnd now
      (Package.CollectParamsOnReqEnd (Package.DefaultReqParams ep start) code) (Some r)
      = Ret (Some (Package.set_Metrics r [MReq m1'; MErr m2'; MResp m3'])) tt /\
    ReqPerEndpoint.numReq m1' = map_incr (ReqPerEndpoint.numReq m1) ep /\
    Reach.er_requests m2' = map_incr (Reach.er_requests m2) ep /\
    Reach.er_errors m2'
      = (if (400 <=? code)%Z then map_incr (Reach.er_errors m2) ep else Reach.er_errors m2) /\
    ResponseTimePerEndpoint.numReq m3' = map_incr (ResponseTimePerEndpoint.numReq m3) ep /\
    ResponseTimePerEndpoint.responseTimeMap m3'
      = <[ep := default [] (ResponseTimePerEndpoint.responseTimeMap m3 !! ep)
                ++ [(inject_Z (now - start) / inject_Z 1000000)%Q]]>
          (ResponseTimePerEndpoint.responseTimeMap m3).
Proof.
  intros Hms Hr.
  destruct (BagProofs.collected_lookups ep start code) as (Hep & Hcode & Hst).
  set (p := Package.CollectParamsOnReqEnd (Package.DefaultReqParams ep start) code) in *.
  destruct (ErrProofs.update_spec p m2 ep code Hr Hep Hcode) as (m2' & Hu & Hreq & Herr).
  unfold Package.UpdateMetricsOnReqEnd. rewrite Hms.
  cbn [Package.update_all Trace.Update].
  unfold ReqPerEndpoint.Update at 1. rewrite Hep. rewrite Hu.
  unfold ResponseTimePerEndpoint.Update at 1. rewrite Hst, Hep.
  do 3 eexists. split; [reflexivity|].
  simpl. repeat split; assumption.
Qed.

Lemma request_end_updates_default_metrics_witness :
  exists m1' m2' m3',
    Package.UpdateMetricsOnReqEnd 5000000
      (Package.CollectParamsOnReqEnd (Package.DefaultReqParams "log" 0) 404)
      (Some (Package.AddMetric (Package.AddMetric (Package.AddMetric
         {| Package.Metrics := []; Package.host := "h"; Package.pid := 1;
            Package.guid := "g"; Package.duration := 60; Package.version := "1.0.0";
            Package.appName := "app"; Package.licence := "key"; Package.verbose := false |}
         (MReq ReqPerEndpoint.New)) (MErr ErrorRatePerEndpoint.New))
         (MResp ResponseTimePerEndpoint.New)))
      = Ret (Some (Package.set_Metrics
           (Package.AddMetric (Package.AddMetric (Package.AddMetric
             {| Package.Metrics := []; Package.host := "h"; Package.pid := 1;
                Package.guid := "g"; Package.duration := 60; Package.version := "1.0.0";
                Package.appName := "app"; Package.licence := "key"; Package.verbose := false |}
             (MReq ReqPerEndpoint.New)) (MErr ErrorRatePerEndpoint.New))
             (MResp ResponseTimePerEndpoint.New))
           [MReq m1'; MErr m2'; MResp m3'])) tt.
Proof.
  destruct (request_end_updates_default_metrics 5000000 0 404 "log"
    (Package.AddMetric (Package.AddMetric (Package.AddMetric
       {| Package.Metrics := []; Package.host := "h"; Package.pid := 1;
          Package.guid := "g"; Package.duration := 60; Package.version := "1.0.0";
          Package.appName := "app"; Package.licence := "key"; Package.verbose := false |}
       (MReq ReqPerEndpoint.New)) (MErr ErrorRatePerEndpoint.New))
       (MResp ResponseTimePerEndpoint.New))
    ReqPerEndpoint.New ErrorRatePerEndpoint.New ResponseTimePerEndpoint.New
    eq_refl Reach.er_new) as (m1' & m2' & m3' & H & _).
  exists m1', m2', m3'. exact H.
Defined.

(** X3: a bag built by [DefaultReqParams] alone (no status code) makes
    [UpdateMetricsOnReqEnd] panic in the error-rate metric, after the
    request-count metric has counted the request and before the latency
    metric sees it; the error-rate metric's mutex stays locked, so from
    then on every reporting cycle blocks before sending anything, and so
    does every later [UpdateMetricsOnReqEnd] whose endpoint attribute is
    absent or a string. *)
Theorem request_without_status_blocks_engine (now start : Z) (ep : string)
    (r : Package.Reporter) (m1 : ReqPerEndpoint.t) (m2 : ErrorRatePerEndpoint.t)
    (m3 : ResponseTimePerEndpoint.t) :
  Package.Metrics r = [MReq m1; MErr m2; MResp m3] ->
  Reach.er_reachable m2 ->
  exists r',
    Package.UpdateMetricsOnReqEnd now (Package.DefaultReqParams ep start) (Some r)
      = Panic (Some r') /\
    Package.Metrics r' =
      [MReq {| ReqPerEndpoint.numReq := map_incr (ReqPerEndpoint.numReq m1) ep;
               ReqPerEndpoint.snapshots := ReqPerEndpoint.snapshots m1 |};
       MErr (ErrorRatePerEndpoint.set_locked m2 true); MResp m3] /\
    (forall resp, sendMetrics resp (Package.Metrics r') = None) /\
    (forall now' p', is_Some (endpointName p') ->
       Package.UpdateMetricsOnReqEnd now' p' (Some r') = Deadlock).
Proof.
  intros Hms Hr.
  destruct (BagProofs.default_lookups ep start) as (Hep & Hcode & _).
  destruct (ErrProofs.reachable_inv m2 Hr) as (_ & _ & Hl).
  unfold Package.UpdateMetricsOnReqEnd. rewrite Hms.
  cbn [Package.update_all Trace.Update].
  unfold ReqPerEndpoint.Update at 1. rewrite Hep.
  unfold ErrorRatePerEndpoint.Update at 1. rewrite Hep, Hl, Hcode.
  eexists. split; [reflexivity|]. split; [reflexivity|]. split.
  - intros resp. reflexivity.
  - intros now' p' [ep' Hep']. simpl.
    unfold ReqPerEndpoint.Update. rewrite Hep'.
    unfold ErrorRatePerEndpoint.Update. rewrite Hep'. reflexivity.
Qed.

Lemma request_without_status_blocks_engine_witness :
  exists r',
    Package.UpdateMetricsOnReqEnd 5000000 (Package.DefaultReqParams "log" 0)
      (Some (Package.set_Metrics
        {| Package.Metrics := []; Package.host := "h"; Package.pid := 1;
           Package.guid := "g"; Package.duration := 60; Package.version := "1.0.0";
           Package.appName := "app"; Package.licence := "key"; Package.verbose := false |}
        [MReq ReqPerEndpoint.New; MErr ErrorRatePerEndpoint.New;
         MResp ResponseTimePerEndpoint.New]))
      = Panic (Some r').
Proof.
  destruct (request_without_status_blocks_engine 5000000 0 "log"
    (Package.set_Metrics
        {| Package.Metrics := []; Package.host := "h"; Package.pid := 1;
           Package.guid := "g"; Package.duration := 60; Package.version := "1.0.0";
           Package.appName := "app"; Package.licence := "key"; Package.verbose := false |}
        [MReq ReqPerEndpoint.New; MErr ErrorRatePerEndpoint.New;
         MResp ResponseTimePerEndpoint.New])
    ReqPerEndpoint.New ErrorRatePerEndpoint.New ResponseTimePerEndpoint.New
    eq_refl Reach.er_new) as (r' & H & _).
  exists r'. exact H.
Defined.

(** X1: [InitDefaultReporter] with an empty licence returns an error and
    sets the package variable [Engine] to nil, whatever it held before;
    every later [UpdateMetricsOnReqEnd] then panics on the nil [Engine].
    With a non-empty licence and a hostname, [Engine] is a reporter with
    the three fresh default metrics in the order request count, error
    rate, latency, a duration of 60 and the given licence. *)
Theorem init_default_reporter_engine :
  (forall hostname pid Guid appname verbose,
     let '(Engine, (res, err)) :=
       Package.InitDefaultReporter hostname pid Guid appname "" verbose in
     Engine = None /\ res = None /\ is_Some err /\
     (forall now p, Package.UpdateMetricsOnReqEnd now p Engine = Panic None)) /\
  (forall host pid Guid appname licence verbose,
     licence <> ""%string ->
     exists r,
       Package.InitDefaultReporter (Some host) pid Guid appname licence verbose
         = (Some r, (Some r, None)) /\
       Package.Metrics r = [MReq ReqPerEndpoint.New; MErr ErrorRatePerEndpoint.New;
                            MResp ResponseTimePerEndpoint.New] /\
       Package.licence r = licence /\ Package.duration r = 60).
Proof.
  split.
  - intros hostname pid Guid appname verbose.
    unfold Package.InitDefaultReporter, Package.NewReporter.
    destruct hostname; simpl; repeat split; eauto.
  - intros host pid Guid appname licence verbose Hl.
    unfold Package.InitDefaultReporter, Package.NewReporter.
    destruct (String.eqb_spec licence ""); [contradiction|].
    eexists. repeat split.
Qed.

Lemma init_default_reporter_engine_witness :
  exists r, Package.InitDefaultReporter (Some "host") 1 "guid" "app" "key" false
            = (Some r, (Some r, None)).
Proof.
  destruct (proj2 init_default_reporter_engine "host" 1 "guid" "app" "key" false
              ltac:(discriminate)) as (r & H & _).
  exists r. exact H.
Defined.

(** X4: for the request-count metric, exporting again with no Update in
    between returns the same mapping: nothing is lost or counted twice
    when [ValueMap] is called repeatedly without [Clear]. *)
Theorem req_reexport_same_mapping (m : ReqPerEndpoint.t) :
  (ReqPerEndpoint.ValueMap (ReqPerEndpoint.ValueMap m).2).1 = (ReqPerEndpoint.ValueMap m).1.
Proof.
  unfold ReqPerEndpoint.ValueMap, ReqPerEndpoint.doSnapshot. cbn [fst snd].
  cbn [ReqPerEndpoint.snapshots ReqPerEndpoint.numReq].
  apply ReqProofs.export_snoc_empty.
Qed.

(** ** The error-rate store *)
Module StoreProofs.
Import ErrorRatePerEndpoint.

Lemma write_incr (h : gmap loc (gmap string Z)) (l : loc) (k : string) (v : Z) :
  write (incr h l k) l k v = write h l k v.
Proof.
  unfold write, incr, load, map_incr. rewrite lookup_insert_eq. simpl.
  rewrite insert_insert_eq, insert_insert_eq. reflexivity.
Qed.

Lemma write_incr_ne (h : gmap loc (gmap string Z)) (l l' : loc) (k : string) (v : Z) :
  l <> l' -> write (incr h l' k) l k v = incr (write h l k v) l' k.
Proof.
  intros Hne. unfold write, incr, load.
  rewrite lookup_insert_ne by congruence. rewrite (lookup_insert_ne _ l l') by congruence.
  now rewrite insert_insert_ne by congruence.
Qed.

Lemma load_write_ne_key (h : gmap loc (gmap string Z)) (l l' : loc) (k k' : string) (v : Z) :
  k <> k' -> load (write h l k v) l' !! k' = load h l' !! k'.
Proof.
  intros Hne. unfold write, load. destruct (decide (l = l')) as [->|Hl].
  - rewrite lookup_insert_eq. simpl. now rewrite lookup_insert_ne by congruence.
  - now rewrite lookup_insert_ne by congruence.
Qed.

Lemma load_incr (h : gmap loc (gmap string Z)) (l l' : loc) (k k' : string) :
  map_get (load h l') k' <= map_get (load (incr h l k) l') k'.
Proof.
  unfold incr, load, map_incr, map_get. destruct (decide (l = l')) as [->|Hl].
  - rewrite lookup_insert_eq. simpl. destruct (decide (k = k')) as [->|Hk].
    + rewrite lookup_insert_eq. simpl. lia.
    + rewrite lookup_insert_ne by congruence. lia.
  - rewrite lookup_insert_ne by congruence. lia.
Qed.

End StoreProofs.

(** X5: the error-rate metric loses every request recorded under the
    ["other"] endpoint (no endpoint attribute, or the name ["other"]):
    in a reachable state, such an Update changes nothing the next
    [ValueMap] returns, neither the mapping nor the state after it,
    because [init] resets the ["other"] counts of the live maps the new
    snapshot shares. *)
Theorem error_rate_other_update_erased (p : params) (m m' : ErrorRatePerEndpoint.t)
    (e : error) :
  Reach.er_reachable m ->
  endpointName p = Some unknownEndpoint ->
  ErrorRatePerEndpoint.Update p m = Ret m' e ->
  ErrorRatePerEndpoint.ValueMap m' = ErrorRatePerEndpoint.ValueMap m.
Proof.
  intros Hr Hep Hu. destruct (ErrProofs.reachable_inv m Hr) as (Hn & He & Hl).
  unfold ErrorRatePerEndpoint.Update in Hu. rewrite Hep, Hl in Hu.
  destruct (p !! "statusCode") as [[|code|]|]; try discriminate.
  injection Hu as <- _.
  destruct m as [h nr ec sn lk]; simpl in *; subst.
  unfold ErrorRatePerEndpoint.ValueMap, ErrorRatePerEndpoint.doSnapshot. simpl.
  unfold ErrorRatePerEndpoint.init. simpl.
  assert (Hh : ErrorRatePerEndpoint.write
                 (ErrorRatePerEndpoint.write
                    (ErrorRatePerEndpoint.incr
                       (if 400 <=? code then ErrorRatePerEndpoint.incr h 2 unknownEndpoint else h)
                       1 unknownEndpoint) 1 unknownEndpoint 0) 2 unknownEndpoint 0
               = ErrorRatePerEndpoint.write
                   (ErrorRatePerEndpoint.write h 1 unknownEndpoint 0) 2 unknownEndpoint 0).
  { rewrite StoreProofs.write_incr. destruct (400 <=? code); [|reflexivity].
    rewrite StoreProofs.write_incr_ne by discriminate.
    now rewrite StoreProofs.write_incr. }
  rewrite Hh. reflexivity.
Qed.

Lemma error_rate_other_update_erased_witness :
  Reach.er_reachable ErrorRatePerEndpoint.New /\
  endpointName (<["statusCode" := VInt 500]> ∅) = Some unknownEndpoint /\
  ErrorRatePerEndpoint.ValueMap
    (match ErrorRatePerEndpoint.Update (<["statusCode" := VInt 500]> ∅) ErrorRatePerEndpoint.New with
     | Ret m' _ => m' | _ => ErrorRatePerEndpoint.New end)
  = ErrorRatePerEndpoint.ValueMap ErrorRatePerEndpoint.New.
Proof.
  split; [exact Reach.er_new|]. split; [reflexivity|].
  apply (error_rate_other_update_erased (<["statusCode" := VInt 500]> ∅)
           ErrorRatePerEndpoint.New _ None Reach.er_new); reflexivity.
Defined.

Module MonoProofs.
Import ErrorRatePerEndpoint Reach.

Lemma update_counts_mono (p : params) (m m' : t) (e : error) (ep : string) :
  Update p m = Ret m' e ->
  map_get (er_requests m) ep <= map_get (er_requests m') ep /\
  map_get (er_errors m) ep <= map_get (er_errors m') ep.
Proof.
  unfold Update. destruct (endpointName p) as [ep0|]; [|discriminate].
  destruct (locked m); [discriminate|].
  destruct (p !! "statusCode") as [[|code|]|]; try discriminate.
  intros H. injection H as <- _. unfold er_requests, er_errors. simpl.
  split; (etransitivity; [|apply StoreProofs.load_incr]);
    destruct (400 <=? code); try apply StoreProofs.load_incr; lia.
Qed.

Lemma valuemap_counts_kept (m m' : t) (vm : gmap string Q) (ep : string) :
  ep <> unknownEndpoint -> ValueMap m = Some (vm, m') ->
  er_requests m' !! ep = er_requests m !! ep /\ er_errors m' !! ep = er_errors m !! ep.
Proof.
  intros Hne. unfold ValueMap, doSnapshot. destruct (locked m); [discriminate|].
  intros H. injection H as _ <-. unfold er_requests, er_errors, init. simpl.
  rewrite !StoreProofs.load_write_ne_key by congruence. split; reflexivity.
Qed.

End MonoProofs.

(** X6: the error-rate metric never lowers the live request or error
    count of an endpoint other than ["other"]: along any sequence of
    Updates, ValueMaps and Clears that does not panic or block, both
    counts only grow.  Neither [ValueMap] nor [Clear] resets them. *)
Theorem error_rate_counts_never_decrease (ops : list Trace.op) (m : ErrorRatePerEndpoint.t)
    (a' : AppMetric) (vms : list (gmap string Q)) (ep : string) :
  Reach.er_reachable m -> ep <> unknownEndpoint ->
  run ops (MErr m) = Some (a', vms) ->
  exists m', a' = MErr m' /\ Reach.er_reachable m' /\
    map_get (Reach.er_requests m) ep <= map_get (Reach.er_requests m') ep /\
    map_get (Reach.er_errors m) ep <= map_get (Reach.er_errors m') ep.
Proof.
  intros Hr Hne. revert m vms Hr.
  induction ops as [|o ops IH]; intros m vms Hr H.
  - injection H as <- _. exists m. repeat split; auto; lia.
  - destruct o as [now p | |]; cbn [run] in H.
    + unfold Trace.Update in H.
      destruct (ErrorRatePerEndpoint.Update p m) as [m1 e| |] eqn:Hu; try discriminate.
      destruct (IH m1 vms (Reach.er_update p m m1 e Hr Hu) H) as (m' & -> & Hr' & H1 & H2).
      destruct (MonoProofs.update_counts_mono p m m1 e ep Hu) as [H3 H4].
      exists m'. repeat split; auto; lia.
    + simpl in H. destruct (ErrorRatePerEndpoint.ValueMap m) as [[vm m1]|] eqn:Hv;
        [|discriminate].
      destruct (run ops (MErr m1)) as [[a'' vms']|] eqn:Hrun; [|discriminate].
      injection H as <- _.
      destruct (IH m1 vms' (Reach.er_export m vm m1 Hr Hv) Hrun) as (m' & -> & Hr' & H1 & H2).
      destruct (MonoProofs.valuemap_counts_kept m m1 vm ep Hne Hv) as [H3 H4].
      exists m'. unfold map_get in *. rewrite H3, H4 in *. repeat split; auto.
    + simpl in H.
      destruct (IH _ vms (Reach.er_clear m Hr) H) as (m' & -> & Hr' & H1 & H2).
      exists m'. repeat split; auto.
Qed.

Lemma error_rate_counts_never_decrease_witness :
  match run [OUpdate 0 (bag_status "log" 404); OExport; OClear; OExport]
            (MErr ErrorRatePerEndpoint.New) with
  | Some (a', _) => exists m', a' = MErr m' /\
      map_get (Reach.er_requests ErrorRatePerEndpoint.New) "log"
        <= map_get (Reach.er_requests m') "log"
  | None => False
  end.
Proof.
  destruct (run [OUpdate 0 (bag_status "log" 404); OExport; OClear; OExport]
                (MErr ErrorRatePerEndpoint.New)) as [[a' vms]|] eqn:E.
  - destruct (error_rate_counts_never_decrease
                [OUpdate 0 (bag_status "log" 404); OExport; OClear; OExport]
                ErrorRatePerEndpoint.New a' vms "log" Reach.er_new ltac:(discriminate) E)
      as (m' & Ha & _ & H1 & _).
    exists m'. split; assumption.
  - assert (Hb : match run [OUpdate 0 (bag_status "log" 404); OExport; OClear; OExport]
                           (MErr ErrorRatePerEndpoint.New) with
                 | Some _ => true | None => false end = true)
      by (vm_compute; reflexivity).
    rewrite E in Hb. discriminate Hb.
Defined.

(** ** Keys of the export mappings *)
Module ShapeProofs.

Lemma map_fold_keys_all {A B V : Type} (f : string -> A -> B -> B)
    (proj : B -> gmap string V) (P : string -> Prop) (b : B) (s : gmap string A) :
  (forall k, is_Some (proj b !! k) -> P k) ->
  (forall i x r, (forall k, is_Some (proj r !! k) -> P k) ->
                 forall k, is_Some (proj (f i x r) !! k) -> P k) ->
  forall k, is_Some (proj (map_fold f b s) !! k) -> P k.
Proof.
  intros H0 Hstep.
  apply (map_fold_weak_ind (fun r _ => forall k, is_Some (proj r !! k) -> P k)); [exact H0|].
  intros i x s' r _ IH. apply Hstep, IH.
Qed.

Lemma insert_name_keys {V : Type} (b : MetricBase) (m : gmap string V) (i : string) (v : V) :
  (forall k, is_Some (m !! k) -> k = overallName b \/ exists ep, k = metricName b ep) ->
  (i = overallName b \/ exists ep, i = metricName b ep) ->
  forall k, is_Some (<[i:=v]> m !! k) -> k = overallName b \/ exists ep, k = metricName b ep.
Proof.
  intros H Hi k. destruct (decide (k = i)) as [->|Hne]; [auto|].
  rewrite lookup_insert_ne by congruence. apply H.
Qed.

Lemma empty_name_keys {V : Type} (b : MetricBase) :
  forall k, is_Some ((∅ : gmap string V) !! k) -> k = overallName b \/ exists ep, k = metricName b ep.
Proof. intros k [v Hv]. rewrite lookup_empty in Hv. discriminate. Qed.

Lemma req_keys (m : ReqPerEndpoint.t) :
  forall k, is_Some ((ReqPerEndpoint.ValueMap m).1 !! k) ->
  k = overallName ReqPerEndpoint.base \/ exists ep, k = metricName ReqPerEndpoint.base ep.
Proof.
  destruct (ReqProofs.valuemap_shape m) as (rc & tot & ->).
  apply insert_name_keys; [|left; reflexivity].
  intros k [v Hv]. right.
  apply (lookup_kmap_Some (metricName ReqPerEndpoint.base)) in Hv.
  destruct Hv as (ep & -> & _). eauto.
Qed.

Lemma err_keys (m m' : ErrorRatePerEndpoint.t) (vm : gmap string Q) :
  ErrorRatePerEndpoint.ValueMap m = Some (vm, m') ->
  forall k, is_Some (vm !! k) ->
  k = overallName ErrorRatePerEndpoint.base \/ exists ep, k = metricName ErrorRatePerEndpoint.base ep.
Proof.
  unfold ErrorRatePerEndpoint.ValueMap.
  destruct (ErrorRatePerEndpoint.doSnapshot m) as [m1|]; [|discriminate].
  intros H. injection H as <- _. unfold ErrorRatePerEndpoint.export.
  destruct (fold_left _ _ _) as [ec rc].
  pose proof (map_fold_keys_all (ErrorRatePerEndpoint.rate_entry rc) (fun r => r.1.1)
    (fun k => k = overallName ErrorRatePerEndpoint.base \/
              exists ep, k = metricName ErrorRatePerEndpoint.base ep)
    (∅, 0%Z, 0%Z) ec (empty_name_keys _)) as Hf.
  destruct (map_fold (ErrorRatePerEndpoint.rate_entry rc) (∅, 0%Z, 0%Z) ec)
    as [[er a] c] eqn:E.
  assert (Her : forall k, is_Some (er !! k) ->
            k = overallName ErrorRatePerEndpoint.base \/
            exists ep, k = metricName ErrorRatePerEndpoint.base ep).
  { apply Hf. intros i x [[er' a'] c'] IH. unfold ErrorRatePerEndpoint.rate_entry. simpl.
    destruct (Qle_bool _ _); simpl.
    - apply insert_name_keys; [exact IH | right; eauto].
    - apply insert_name_keys; [apply insert_name_keys; [exact IH | right; eauto]
                               | right; eauto]. }
  destruct (0 <? c)%Z.
  - apply insert_name_keys; [apply insert_name_keys; [exact Her | left; reflexivity]
                             | left; reflexivity].
  - apply insert_name_keys; [exact Her | left; reflexivity].
Qed.

Lemma resp_keys (m : ResponseTimePerEndpoint.t) :
  forall k, is_Some ((ResponseTimePerEndpoint.ValueMap m).1 !! k) ->
  k = overallName ResponseTimePerEndpoint.base \/
  exists ep, k = metricName ResponseTimePerEndpoint.base ep.
Proof.
  unfold ResponseTimePerEndpoint.ValueMap.
  pose proof (map_fold_keys_all ResponseTimePerEndpoint.value_entry (fun r => r.1.1.1)
    (fun k => k = overallName ResponseTimePerEndpoint.base \/
              exists ep, k = metricName ResponseTimePerEndpoint.base ep)
    (∅, 0%Q, 0%Z, m) (ResponseTimePerEndpoint.responseTimeMap m) (empty_name_keys _)) as Hf.
  destruct (map_fold ResponseTimePerEndpoint.value_entry (∅, 0%Q, 0%Z, m)
              (ResponseTimePerEndpoint.responseTimeMap m)) as [[[mt a] n] m'] eqn:E.
  assert (Hmt : forall k, is_Some (mt !! k) ->
            k = overallName ResponseTimePerEndpoint.base \/
            exists ep, k = metricName ResponseTimePerEndpoint.base ep).
  { apply Hf. intros i x [[[mt' a'] n'] m''] IH. unfold ResponseTimePerEndpoint.value_entry.
    simpl. destruct (Qle_bool _ _); simpl.
    - apply insert_name_keys; [exact IH | right; eauto].
    - apply insert_name_keys; [apply insert_name_keys; [exact IH | right; eauto]
                               | right; eauto]. }
  simpl. destruct (0 <? n)%Z.
  - apply insert_name_keys; [apply insert_name_keys; [exact Hmt | left; reflexivity]
                             | left; reflexivity].
  - apply insert_name_keys; [exact Hmt | left; reflexivity].
Qed.

Ltac names_differ :=
  intros k [->|[? ->]] [H|[? H]];
  unfold metricName, overallName in H; simpl in H; discriminate H.

Lemma req_err_disjoint (k : string) :
  (k = overallName ReqPerEndpoint.base \/ exists ep, k = metricName ReqPerEndpoint.base ep) ->
  (k = overallName ErrorRatePerEndpoint.base \/
   exists ep, k = metricName ErrorRatePerEndpoint.base ep) -> False.
Proof. revert k. names_differ. Qed.

Lemma req_resp_disjoint (k : string) :
  (k = overallName ReqPerEndpoint.base \/ exists ep, k = metricName ReqPerEndpoint.base ep) ->
  (k = overallName ResponseTimePerEndpoint.base \/
   exists ep, k = metricName ResponseTimePerEndpoint.base ep) -> False.
Proof. revert k. names_differ. Qed.

Lemma err_resp_disjoint (k : string) :
  (k = overallName ErrorRatePerEndpoint.base \/
   exists ep, k = metricName ErrorRatePerEndpoint.base ep) ->
  (k = overallName ResponseTimePerEndpoint.base \/
   exists ep, k = metricName ResponseTimePerEndpoint.base ep) -> False.
Proof. revert k. names_differ. Qed.

Lemma not_some_none {V : Type} (m : gmap string V) (k : string) :
  ~ is_Some (m !! k) -> m !! k = None.
Proof. intros H. destruct (m !! k) eqn:E; [exfalso; apply H; eauto | reflexivity]. Qed.

End ShapeProofs.

(** X8: in a reporting cycle over the three default metrics (request
    count, error rate, latency), the payload is exactly the union of the
    three exports with no entry overwritten: every entry of every export
    is in the payload with its value, and every payload entry comes from
    one of the exports.  The metric names of the three kinds never
    collide. *)
Theorem send_payload_is_disjoint_union (resp : response) (m1 : ReqPerEndpoint.t)
    (m2 m2' : ErrorRatePerEndpoint.t) (vm2 : gmap string Q) (m3 : ResponseTimePerEndpoint.t) :
  ErrorRatePerEndpoint.ValueMap m2 = Some (vm2, m2') ->
  exists payload,
    sendMetrics resp [MReq m1; MErr m2; MResp m3]
      = Some ([MReq (ReqPerEndpoint.ValueMap m1).2; MErr m2';
               MResp (ResponseTimePerEndpoint.ValueMap m3).2], payload, doRequest resp) /\
    (forall k v, (ReqPerEndpoint.ValueMap m1).1 !! k = Some v -> payload !! k = Some v) /\
    (forall k v, vm2 !! k = Some v -> payload !! k = Some v) /\
    (forall k v, (ResponseTimePerEndpoint.ValueMap m3).1 !! k = Some v -> payload !! k = Some v) /\
    (forall k, is_Some (payload !! k) ->
       is_Some ((ReqPerEndpoint.ValueMap m1).1 !! k) \/ is_Some (vm2 !! k) \/
       is_Some ((ResponseTimePerEndpoint.ValueMap m3).1 !! k)).
Proof.
  intros Hv.
  pose proof (ShapeProofs.req_keys m1) as K1.
  pose proof (ShapeProofs.err_keys m2 m2' vm2 Hv) as K2.
  pose proof (ShapeProofs.resp_keys m3) as K3.
  destruct (ReqPerEndpoint.ValueMap m1) as [vm1 m1'] eqn:E1.
  destruct (ResponseTimePerEndpoint.ValueMap m3) as [vm3 m3'] eqn:E3. simpl in *.
  unfold sendMetrics. cbn [extract Reporter.ValueMap]. rewrite E1, Hv, E3.
  exists (vm3 ∪ (vm2 ∪ (vm1 ∪ ∅))). split; [reflexivity|].
  assert (N31 : forall k, is_Some (vm1 !! k) -> vm3 !! k = None).
  { intros k H. apply ShapeProofs.not_some_none. intros H'.
    exact (ShapeProofs.req_resp_disjoint k (K1 k H) (K3 k H')). }
  assert (N21 : forall k, is_Some (vm1 !! k) -> vm2 !! k = None).
  { intros k H. apply ShapeProofs.not_some_none. intros H'.
    exact (ShapeProofs.req_err_disjoint k (K1 k H) (K2 k H')). }
  assert (N32 : forall k, is_Some (vm2 !! k) -> vm3 !! k = None).
  { intros k H. apply ShapeProofs.not_some_none. intros H'.
    exact (ShapeProofs.err_resp_disjoint k (K2 k H) (K3 k H')). }
  split; [|split; [|split]].
  - intros k v H. assert (Hk : is_Some (vm1 !! k)) by eauto.
    rewrite lookup_union_r by auto. rewrite lookup_union_r by auto.
    rewrite lookup_union_l by apply lookup_empty. exact H.
  - intros k v H. assert (Hk : is_Some (vm2 !! k)) by eauto.
    rewrite lookup_union_r by auto. rewrite lookup_union_l' by exact Hk. exact H.
  - intros k v H. rewrite lookup_union_l' by eauto. exact H.
  - intros k H. rewrite !lookup_union_is_Some in H. rewrite lookup_empty in H.
    destruct H as [H|[H|[H|[? H]]]]; auto; discriminate.
Qed.

Lemma send_payload_is_disjoint_union_witness :
  match ErrorRatePerEndpoint.ValueMap ErrorRatePerEndpoint.New with
  | Some (vm2, m2') =>
      exists payload,
        sendMetrics (Status 200) [MReq ReqPerEndpoint.New; MErr ErrorRatePerEndpoint.New;
                                  MResp ResponseTimePerEndpoint.New]
          = Some ([MReq (ReqPerEndpoint.ValueMap ReqPerEndpoint.New).2; MErr m2';
                   MResp (ResponseTimePerEndpoint.ValueMap ResponseTimePerEndpoint.New).2],
                  payload, doRequest (Status 200))
  | None => False
  end.
Proof.
  destruct (ErrorRatePerEndpoint.ValueMap ErrorRatePerEndpoint.New) as [[vm2 m2']|] eqn:E.
  - destruct (send_payload_is_disjoint_union (Status 200) ReqPerEndpoint.New
      ErrorRatePerEndpoint.New m2' vm2 ResponseTimePerEndpoint.New E) as (payload & H & _).
    exists payload. exact H.
  - assert (Hb : match ErrorRatePerEndpoint.ValueMap ErrorRatePerEndpoint.New with
                 | Some _ => true | None => false end = true)
      by (vm_compute; reflexivity).
    rewrite E in Hb. discriminate Hb.
Defined.

(** ** The latency metric's export loop *)
Module LatencyProofs.
Import ResponseTimePerEndpoint.

(** The latency metric's per-endpoint value, as the loop body computes it
    from the endpoint's count [n] and latencies [l]. *)
Lemma valuemap_fold (m : t) :
  let r := map_fold value_entry (∅, 0%Q, 0%Z, m) (responseTimeMap m) in
  forall k,
    (responseTimeMap m !! k = None ->
       numReq r.2 !! k = numReq m !! k /\ responseTimeMap r.2 !! k = None /\
       r.1.1.1 !! metricName base k = None) /\
    (forall l, responseTimeMap m !! k = Some l ->
       numReq r.2 !! k = Some 0%Z /\ responseTimeMap r.2 !! k = Some [0%Q] /\
       r.1.1.1 !! metricName base k =
         Some (if Qle_bool (inject_Z (map_get (numReq m) k)) 0 then 0%Q
               else (fold_left Qplus l 0 / inject_Z (map_get (numReq m) k))%Q)).
Proof.
  intros r.
  assert (H : forall k,
    (responseTimeMap m !! k = None ->
       numReq r.2 !! k = numReq m !! k /\ responseTimeMap r.2 !! k = responseTimeMap m !! k /\
       r.1.1.1 !! metricName base k = None) /\
    (forall l, responseTimeMap m !! k = Some l ->
       numReq r.2 !! k = Some 0%Z /\ responseTimeMap r.2 !! k = Some [0%Q] /\
       r.1.1.1 !! metricName base k =
         Some (if Qle_bool (inject_Z (map_get (numReq m) k)) 0 then 0%Q
               else (fold_left Qplus l 0 / inject_Z (map_get (numReq m) k))%Q))).
  2:{ intros k. destruct (H k) as [H1 H2]. split; [|exact H2].
      intros Hk. destruct (H1 Hk) as (? & Hr & ?). rewrite Hk in Hr. auto. }
  unfold r.
  refine (map_fold_weak_ind (fun (r : gmap string Q * Q * Z * t) j => forall k,
    (j !! k = None ->
       numReq r.2 !! k = numReq m !! k /\ responseTimeMap r.2 !! k = responseTimeMap m !! k /\
       r.1.1.1 !! metricName base k = None) /\
    (forall l, j !! k = Some l ->
       numReq r.2 !! k = Some 0%Z /\ responseTimeMap r.2 !! k = Some [0%Q] /\
       r.1.1.1 !! metricName base k =
         Some (if Qle_bool (inject_Z (map_get (numReq m) k)) 0 then 0%Q
               else (fold_left Qplus l 0 / inject_Z (map_get (numReq m) k))%Q)))
    value_entry (∅, 0%Q, 0%Z, m) _ _ (responseTimeMap m)).
  - intros k. split.
    + intros _. cbn. rewrite lookup_empty. auto.
    + intros l Hl. rewrite lookup_empty in Hl. discriminate.
  - intros i x j [[[mt a] n] mm] Hi IH k.
    destruct (IH i) as [Hii _]. destruct (Hii Hi) as (Hn & _ & _). cbn [fst snd] in Hn.
    unfold value_entry. cbn [fst snd].
    assert (Hget : map_get (numReq mm) i = map_get (numReq m) i)
      by (unfold map_get; now rewrite Hn).
    rewrite Hget.
    destruct (decide (k = i)) as [->|Hne].
    + split; [rewrite lookup_insert_eq; discriminate|].
      intros l Hl. rewrite lookup_insert_eq in Hl. injection Hl as <-.
      cbn [fst snd numReq responseTimeMap]. unfold float32_of_int.
      rewrite !lookup_insert_eq.
      destruct (Qle_bool (inject_Z (map_get (numReq m) i)) 0);
        rewrite lookup_insert_eq; auto.
    + rewrite lookup_insert_ne by congruence. destruct (IH k) as [IH1 IH2].
      cbn [fst snd] in IH1, IH2.
      assert (Hnm : metricName base i <> metricName base k)
        by (intros Heq; apply Hne; symmetry; exact (inj (metricName base) _ _ Heq)).
      cbn [fst snd numReq responseTimeMap]. unfold float32_of_int.
      rewrite !(lookup_insert_ne _ i k) by congruence.
      destruct (Qle_bool (inject_Z (map_get (numReq m) i)) 0);
        rewrite !(lookup_insert_ne _ (metricName base i)) by exact Hnm; auto.
Qed.

Lemma metric_ne_overall (ep : string) : metricName base ep <> overallName base.
Proof. unfold metricName, overallName. simpl. discriminate. Qed.

Lemma valuemap_metric (m : t) (ep : string) (l : list Q) :
  responseTimeMap m !! ep = Some l ->
  (ValueMap m).1 !! metricName base ep =
    Some (if Qle_bool (inject_Z (map_get (numReq m) ep)) 0 then 0%Q
          else (fold_left Qplus l 0 / inject_Z (map_get (numReq m) ep))%Q).
Proof.
  intros Hl. pose proof (valuemap_fold m) as H. cbv zeta in H.
  destruct (H ep) as [_ H2]. destruct (H2 l Hl) as (_ & _ & H3). clear H H2.
  unfold ValueMap.
  destruct (map_fold value_entry (∅, 0%Q, 0%Z, m) (responseTimeMap m)) as [[[mt a] n] mm].
  cbn [fst snd] in H3 |- *.
  destruct (0 <? n)%Z; rewrite !lookup_insert_ne by (apply not_eq_sym, metric_ne_overall);
    exact H3.
Qed.

Lemma valuemap_state (m : t) (k : string) :
  (responseTimeMap m !! k = None ->
     numReq (ValueMap m).2 !! k = numReq m !! k /\ responseTimeMap (ValueMap m).2 !! k = None) /\
  (forall l, responseTimeMap m !! k = Some l ->
     numReq (ValueMap m).2 !! k = Some 0%Z /\ responseTimeMap (ValueMap m).2 !! k = Some [0%Q]).
Proof.
  pose proof (valuemap_fold m) as H. cbv zeta in H. destruct (H k) as [H1 H2]. clear H.
  unfold ValueMap.
  destruct (map_fold value_entry (∅, 0%Q, 0%Z, m) (responseTimeMap m)) as [[[mt a] n] mm].
  cbn [fst snd] in H1, H2 |- *. destruct (0 <? n)%Z; cbn [snd].
  - split; [intros Hk; destruct (H1 Hk) as (? & ? & _); auto|].
    intros l Hl. destruct (H2 l Hl) as (? & ? & _); auto.
  - split; [intros Hk; destruct (H1 Hk) as (? & ? & _); auto|].
    intros l Hl. destruct (H2 l Hl) as (? & ? & _); auto.
Qed.

Lemma unseen_zero (m : t) :
  Reach.rt_reachable m ->
  forall k, responseTimeMap m !! k = None -> map_get (numReq m) k = 0%Z.
Proof.
  induction 1 as [| now p m m' e _ IH Hu | m _ IH | m _ IH]; intros k Hk.
  - unfold map_get. simpl. now rewrite lookup_empty.
  - unfold Update in Hu.
    destruct (p !! "reqStartTime") as [[| |st]|]; try discriminate.
    + destruct (endpointName p) as [ep|]; [|discriminate].
      injection Hu as <- _. simpl in Hk |- *.
      destruct (decide (k = ep)) as [->|Hne]; [now rewrite lookup_insert_eq in Hk|].
      rewrite lookup_insert_ne in Hk by congruence.
      unfold map_incr, map_get. rewrite lookup_insert_ne by congruence. apply IH, Hk.
    + injection Hu as <- _. apply IH, Hk.
  - destruct (valuemap_state m k) as [H1 H2].
    destruct (responseTimeMap m !! k) as [l|] eqn:E.
    + destruct (H2 l eq_refl) as [_ H]. congruence.
    + destruct (H1 eq_refl) as [H _]. unfold map_get. rewrite H. apply IH, E.
  - apply IH, Hk.
Qed.

Lemma updates_run (ep : string) (us : list (Z * Z)) (ops : list Trace.op) (s : t) :
  exists s',
    Trace.run (map (fun u => Trace.OUpdate u.1 (bag_start ep u.2)) us ++ ops) (Reporter.MResp s)
      = Trace.run ops (Reporter.MResp s') /\
    default [] (responseTimeMap s' !! ep)
      = default [] (responseTimeMap s !! ep)
        ++ map (fun u => (inject_Z (u.1 - u.2) / inject_Z 1000000)%Q) us /\
    map_get (numReq s') ep = (map_get (numReq s) ep + Z.of_nat (length us))%Z /\
    (is_Some (responseTimeMap s !! ep) -> is_Some (responseTimeMap s' !! ep)) /\
    (us <> [] -> is_Some (responseTimeMap s' !! ep)).
Proof.
  revert s. induction us as [|u us IH]; intros s.
  - exists s. simpl. rewrite app_nil_r. repeat split; auto; [lia|]. now intros [].
  - cbn [map app Trace.run Trace.Update].
    assert (Hst : bag_start ep u.2 !! "reqStartTime" = Some (VTime u.2))
      by (unfold bag_start; now rewrite lookup_insert_eq).
    assert (Hep : endpointName (bag_start ep u.2) = Some ep)
      by (unfold endpointName, bag_start, bag_ep; by simplify_map_eq).
    unfold Update at 1. rewrite Hst, Hep.
    destruct (IH {| numReq := map_incr (numReq s) ep;
                    responseTimeMap :=
                      <[ep := default [] (responseTimeMap s !! ep)
                              ++ [(inject_Z (u.1 - u.2) / inject_Z 1000000)%Q]]>
                        (responseTimeMap s) |}) as (s' & Hrun & Hd & Hn & Hk & _).
    exists s'. cbn [numReq responseTimeMap] in Hd, Hn, Hk.
    rewrite lookup_insert_eq in Hd, Hk. simpl in Hd.
    split; [exact Hrun|]. split; [rewrite Hd, <- app_assoc; reflexivity|].
    split; [rewrite Hn; unfold map_incr, map_get at 1; rewrite lookup_insert_eq;
            simpl; lia|].
    split; intros _; apply Hk; eauto.
Qed.

End LatencyProofs.

(** X9: after an export of any reachable latency metric, [N > 0]
    requests recorded for one endpoint and then exported give, for that
    endpoint, the mean of their durations in milliseconds (the [0.0] left in
    the list by the previous export adds nothing to the sum). *)
Theorem latency_export_is_mean (m : ResponseTimePerEndpoint.t) (ep : string) (us : list (Z * Z)) :
  Reach.rt_reachable m -> us <> [] ->
  exists vm,
    Trace.last_export
      (map (fun u => Trace.OUpdate u.1 (bag_start ep u.2)) us ++ [Trace.OExport])
      (Reporter.MResp (ResponseTimePerEndpoint.ValueMap m).2) = Some vm /\
    vm !! metricName ResponseTimePerEndpoint.base ep =
      Some (fold_left Qplus (map (fun u => (inject_Z (u.1 - u.2) / inject_Z 1000000)%Q) us) 0
            / inject_Z (Z.of_nat (length us)))%Q.
Proof.
  intros Hr Hus.
  set (m0 := (ResponseTimePerEndpoint.ValueMap m).2).
  assert (H0 : map_get (ResponseTimePerEndpoint.numReq m0) ep = 0%Z /\
               (default [] (ResponseTimePerEndpoint.responseTimeMap m0 !! ep) = [] \/
                default [] (ResponseTimePerEndpoint.responseTimeMap m0 !! ep) = [0%Q])).
  { destruct (LatencyProofs.valuemap_state m ep) as [H1 H2]. unfold m0.
    destruct (ResponseTimePerEndpoint.responseTimeMap m !! ep) as [l|] eqn:E.
    - destruct (H2 l eq_refl) as [Hn ->]. unfold map_get. rewrite Hn. simpl. auto.
    - destruct (H1 eq_refl) as [Hn ->]. unfold map_get in *. rewrite Hn. split; [|auto].
      pose proof (LatencyProofs.unseen_zero m Hr ep E) as Hz. unfold map_get in Hz. exact Hz. }
  destruct H0 as [Hn0 Hl0].
  destruct (LatencyProofs.updates_run ep us [Trace.OExport] m0) as (s' & Hrun & Hd & Hn & _ & Hk).
  destruct (Hk Hus) as [l Hl]. rewrite Hl in Hd. simpl in Hd.
  exists (ResponseTimePerEndpoint.ValueMap s').1.
  split.
  - unfold Trace.last_export. rewrite Hrun. cbn [Trace.run Reporter.ValueMap].
    destruct (ResponseTimePerEndpoint.ValueMap s'). reflexivity.
  - rewrite (LatencyProofs.valuemap_metric s' ep l Hl). rewrite Hn, Hn0, Z.add_0_l.
    assert (Hlen : (0 < Z.of_nat (length us))%Z) by (destruct us; [congruence|simpl; lia]).
    destruct (Qle_bool (inject_Z (Z.of_nat (length us))) 0) eqn:Eq.
    + apply Qle_bool_iff in Eq. unfold Qle in Eq. simpl in Eq. lia.
    + f_equal. f_equal. rewrite Hd.
      destruct Hl0 as [-> | ->]; [reflexivity|].
      rewrite fold_left_app. reflexivity.
Qed.

Lemma latency_export_is_mean_witness :
  Trace.last_export
    (map (fun u => Trace.OUpdate u.1 (bag_start "/a" u.2)) [(3000000, 1000000); (5000000, 0)]
       ++ [Trace.OExport])
    (Reporter.MResp (ResponseTimePerEndpoint.ValueMap ResponseTimePerEndpoint.New).2) <> None.
Proof.
  destruct (latency_export_is_mean ResponseTimePerEndpoint.New "/a"
              [(3000000, 1000000); (5000000, 0)] Reach.rt_new ltac:(discriminate))
    as (vm & Hvm & _).
  rewrite Hvm. discriminate.
Defined.

(** ** What the error-rate export reports *)
Module RateProofs.
Import ErrorRatePerEndpoint Reach.








End RateProofs.



(** ** The earlier version of the metrics *)
Module LegacyReqProofs.
Import Legacy.ReqPerEndpoint.

Lemma count_fold (c : gmap string Z) :
  (forall ep, (map_fold count_entry (∅, 0) c).1 !! metricName base ep
              = float32_of_int <$> c !! ep) /\
  (map_fold count_entry (∅, 0) c).2 = ReqSummary.map_total c.
Proof.
  refine (map_fold_weak_ind (fun (r : gmap string Q * Z) J =>
    (forall ep, r.1 !! metricName base ep = float32_of_int <$> J !! ep) /\
    r.2 = ReqSummary.map_total J)
    count_entry (∅, 0) _ _ c).
  - split; [intros ep; now rewrite !lookup_empty | reflexivity].
  - intros i x J [mm n] Hi [IH1 IH2]. unfold count_entry. cbn [fst snd] in *. split.
    + intros ep. destruct (decide (ep = i)) as [->|Hne].
      * now rewrite !lookup_insert_eq.
      * assert (Hnm : metricName base i <> metricName base ep)
          by (intros Heq; apply Hne; symmetry; exact (inj (metricName base) _ _ Heq)).
        rewrite !lookup_insert_ne by congruence. apply IH1.
    + rewrite ReqProofs.map_total_insert_fresh by exact Hi. lia.
Qed.

End LegacyReqProofs.

(** X10: the earlier request counter reports what it counted since the
    previous export and then forgets every endpoint.  [ValueMap] reports,
    for each endpoint with a count, that count, and overall the sum of
    all counts; a second [ValueMap] with no request in between returns
    only the overall entry, 0. *)
Theorem legacy_req_export_resets (m : Legacy.ReqPerEndpoint.t) :
  (forall ep,
     (Legacy.ReqPerEndpoint.ValueMap m).1 !! metricName Legacy.ReqPerEndpoint.base ep
     = float32_of_int <$> Legacy.ReqPerEndpoint.reqCount m !! ep) /\
  (Legacy.ReqPerEndpoint.ValueMap m).1 !! overallName Legacy.ReqPerEndpoint.base
    = Some (float32_of_int (ReqSummary.map_total (Legacy.ReqPerEndpoint.reqCount m))) /\
  (Legacy.ReqPerEndpoint.ValueMap (Legacy.ReqPerEndpoint.ValueMap m).2).1
    = <[overallName Legacy.ReqPerEndpoint.base := 0%Q]> ∅.
Proof.
  assert (E2 : (Legacy.ReqPerEndpoint.ValueMap m).2 = {| Legacy.ReqPerEndpoint.reqCount := ∅ |})
    by (unfold Legacy.ReqPerEndpoint.ValueMap; now destruct map_fold).
  split; [|split]; [| |rewrite E2; unfold Legacy.ReqPerEndpoint.ValueMap;
                       cbn [Legacy.ReqPerEndpoint.reqCount]; now rewrite map_fold_empty].
  all: destruct (LegacyReqProofs.count_fold (Legacy.ReqPerEndpoint.reqCount m)) as [H1 H2];
    unfold Legacy.ReqPerEndpoint.ValueMap;
    destruct (map_fold Legacy.ReqPerEndpoint.count_entry (∅, 0)
                (Legacy.ReqPerEndpoint.reqCount m)) as [mm n];
    cbn [fst snd] in H1, H2 |- *.
  - intros ep. rewrite lookup_insert_ne by (unfold metricName, overallName; simpl; discriminate).
    apply H1.
  - rewrite lookup_insert_eq, H2. reflexivity.
Qed.

Module LegacyRateProofs.
Import Legacy.ErrorRatePerEndpoint.

Lemma legacy_rate_fold (m : t) :
  let r := map_fold rate_entry (∅, 0, 0, m) (errorCount m) in
  locked r.2 = locked m /\
  forall k,
    (errorCount m !! k = None ->
       r.1.1.1 !! metricName base k = None /\
       reqCount r.2 !! k = reqCount m !! k /\ errorCount r.2 !! k = None) /\
    (forall x, errorCount m !! k = Some x ->
       r.1.1.1 !! metricName base k =
         Some (if Qle_bool (float32_of_int (map_get (reqCount m) k)) 0 then 0%Q
               else (float32_of_int x / float32_of_int (map_get (reqCount m) k))%Q) /\
       reqCount r.2 !! k = Some 0 /\ errorCount r.2 !! k = Some 0).
Proof.
  intros r.
  assert (H : locked r.2 = locked m /\ forall k,
    (errorCount m !! k = None ->
       r.1.1.1 !! metricName base k = None /\
       reqCount r.2 !! k = reqCount m !! k /\ errorCount r.2 !! k = errorCount m !! k) /\
    (forall x, errorCount m !! k = Some x ->
       r.1.1.1 !! metricName base k =
         Some (if Qle_bool (float32_of_int (map_get (reqCount m) k)) 0 then 0%Q
               else (float32_of_int (map_get (errorCount m) k)
                     / float32_of_int (map_get (reqCount m) k))%Q) /\
       reqCount r.2 !! k = Some 0 /\ errorCount r.2 !! k = Some 0)).
  2:{ destruct H as [Hl H]. split; [exact Hl|]. intros k. destruct (H k) as [H1 H2].
      split.
      - intros Hk. destruct (H1 Hk) as (? & ? & He). rewrite Hk in He. auto.
      - intros x Hx. destruct (H2 x Hx) as (Hv & ? & ?). unfold map_get in Hv at 2.
        rewrite Hx in Hv. auto. }
  unfold r.
  refine (map_fold_weak_ind (fun (r : gmap string Q * Z * Z * t) J =>
    locked r.2 = locked m /\ forall k,
    (J !! k = None ->
       r.1.1.1 !! metricName base k = None /\
       reqCount r.2 !! k = reqCount m !! k /\ errorCount r.2 !! k = errorCount m !! k) /\
    (forall x, J !! k = Some x ->
       r.1.1.1 !! metricName base k =
         Some (if Qle_bool (float32_of_int (map_get (reqCount m) k)) 0 then 0%Q
               else (float32_of_int (map_get (errorCount m) k)
                     / float32_of_int (map_get (reqCount m) k))%Q) /\
       reqCount r.2 !! k = Some 0 /\ errorCount r.2 !! k = Some 0))
    rate_entry (∅, 0, 0, m) _ _ (errorCount m)).
  - split; [reflexivity|]. intros k. split.
    + intros _. cbn. rewrite lookup_empty. auto.
    + intros x Hx. rewrite lookup_empty in Hx. discriminate.
  - intros i x J [[[mt a] n] mm] Hi [Hl IH]. cbn [fst snd] in Hl.
    destruct (IH i) as [Hii _]. destruct (Hii Hi) as (_ & Hr & He). cbn [fst snd] in Hr, He.
    assert (Gr : map_get (reqCount mm) i = map_get (reqCount m) i)
      by (unfold map_get; now rewrite Hr).
    assert (Ge : map_get (errorCount mm) i = map_get (errorCount m) i)
      by (unfold map_get; now rewrite He).
    unfold rate_entry. cbn [fst snd reqCount errorCount locked]. rewrite Gr, Ge.
    split; [exact Hl|]. intros k.
    destruct (decide (k = i)) as [->|Hne].
    + split; [rewrite lookup_insert_eq; discriminate|].
      intros y _. rewrite !lookup_insert_eq.
      destruct (Qle_bool (float32_of_int (map_get (reqCount m) i)) 0);
        rewrite lookup_insert_eq; auto.
    + rewrite lookup_insert_ne by congruence. destruct (IH k) as [IH1 IH2].
      cbn [fst snd] in IH1, IH2.
      assert (Hnm : metricName base i <> metricName base k)
        by (intros Heq; apply Hne; symmetry; exact (inj (metricName base) _ _ Heq)).
      rewrite !(lookup_insert_ne _ i k) by congruence.
      destruct (Qle_bool (float32_of_int (map_get (reqCount m) i)) 0);
        rewrite !(lookup_insert_ne _ (metricName base i)) by exact Hnm; auto.
Qed.

Lemma legacy_err_metric_ne_overall (ep : string) : metricName base ep <> overallName base.
Proof. unfold metricName, overallName. simpl. discriminate. Qed.

(** An export from a state where every endpoint of [errorCount] has no
    request reports 0 everywhere. *)
Lemma zero_export (m : t) :
  locked m = false ->
  (forall k x, errorCount m !! k = Some x -> map_get (reqCount m) k = 0) ->
  exists vm m', ValueMap m = Some (vm, m') /\ map_Forall (fun _ v => v = 0%Q) vm.
Proof.
  intros Hl Hz.
  assert (H : (forall k v, (map_fold rate_entry (∅, 0, 0, m) (errorCount m)).1.1.1 !! k = Some v ->
                           v = 0%Q) /\
              (map_fold rate_entry (∅, 0, 0, m) (errorCount m)).1.2 = 0).
  { cut ((forall k x, errorCount m !! k = Some x -> map_get (reqCount m) k = 0) ->
         (forall k v, (map_fold rate_entry (∅, 0, 0, m) (errorCount m)).1.1.1 !! k = Some v ->
                      v = 0%Q) /\
         (map_fold rate_entry (∅, 0, 0, m) (errorCount m)).1.2 = 0 /\
         (forall k, errorCount m !! k = None ->
            reqCount (map_fold rate_entry (∅, 0, 0, m) (errorCount m)).2 !! k
            = reqCount m !! k)); [intros C; destruct (C Hz) as (? & ? & _); auto|].
    refine (map_fold_weak_ind (fun (r : gmap string Q * Z * Z * t) J =>
      (forall k x, J !! k = Some x -> map_get (reqCount m) k = 0) ->
      (forall k v, r.1.1.1 !! k = Some v -> v = 0%Q) /\ r.1.2 = 0 /\
      (forall k, J !! k = None -> reqCount r.2 !! k = reqCount m !! k))
      rate_entry (∅, 0, 0, m) _ _ (errorCount m)).
    - intros _. split; [intros k v Hk; cbn in Hk; by rewrite lookup_empty in Hk|]. split; reflexivity.
    - intros i x J [[[mt a] n] mm] Hi IH HJ.
      destruct IH as (Hm & Hn & Hr).
      { intros k y Hk. apply (HJ k y). destruct (decide (k = i)) as [->|Hne].
        - congruence.
        - now rewrite lookup_insert_ne by congruence. }
      cbn [fst snd] in Hm, Hn, Hr. subst n.
      assert (Hi0 : map_get (reqCount mm) i = 0).
      { unfold map_get. rewrite (Hr i Hi). apply (HJ i x). now rewrite lookup_insert_eq. }
      assert (Q0 : Qle_bool (float32_of_int 0) 0 = true) by reflexivity.
      unfold rate_entry. rewrite Hi0, Q0. cbn [fst snd reqCount]. split; [|split].
      + intros k v Hk. destruct (decide (k = metricName base i)) as [->|Hne].
        * rewrite lookup_insert_eq in Hk. now injection Hk as <-.
        * rewrite lookup_insert_ne in Hk by congruence. exact (Hm k v Hk).
      + reflexivity.
      + intros k Hk. destruct (decide (k = i)) as [->|Hne].
        * now rewrite lookup_insert_eq in Hk.
        * rewrite lookup_insert_ne by congruence. apply Hr.
          now rewrite lookup_insert_ne in Hk by congruence. }
  destruct H as [Hm Hn]. unfold ValueMap. rewrite Hl.
  destruct (map_fold rate_entry (∅, 0, 0, m) (errorCount m)) as [[[mt a] n] mm].
  cbn [fst snd] in Hm, Hn. subst n. do 2 eexists. split; [reflexivity|].
  intros k v Hk. cbn in Hk. destruct (decide (k = overallName base)) as [->|Hne].
  - rewrite lookup_insert_eq in Hk. now injection Hk as <-.
  - rewrite lookup_insert_ne in Hk by congruence. exact (Hm k v Hk).
Qed.

End LegacyRateProofs.

(** X11: the earlier error-rate metric reports, for every endpoint with a
    key in its error map, the ratio of its errors to its requests since
    the previous export (0 without requests), and resets both counts of
    that endpoint to 0; an endpoint with requests but no key in the error
    map (no request with status 400 or more since creation) gets no entry
    and keeps its request count, which keeps growing across exports.  A
    second export with no request in between reports 0 everywhere. *)
Theorem legacy_error_rate_export (m : Legacy.ErrorRatePerEndpoint.t) :
  Legacy.ErrorRatePerEndpoint.locked m = false ->
  exists vm m',
    Legacy.ErrorRatePerEndpoint.ValueMap m = Some (vm, m') /\
    (forall ep,
       match Legacy.ErrorRatePerEndpoint.errorCount m !! ep with
       | Some e =>
           vm !! metricName Legacy.ErrorRatePerEndpoint.base ep =
             Some (if map_get (Legacy.ErrorRatePerEndpoint.reqCount m) ep <=? 0 then 0%Q
                   else (inject_Z e
                         / inject_Z (map_get (Legacy.ErrorRatePerEndpoint.reqCount m) ep))%Q) /\
           Legacy.ErrorRatePerEndpoint.reqCount m' !! ep = Some 0 /\
           Legacy.ErrorRatePerEndpoint.errorCount m' !! ep = Some 0
       | None =>
           vm !! metricName Legacy.ErrorRatePerEndpoint.base ep = None /\
           Legacy.ErrorRatePerEndpoint.reqCount m' !! ep
             = Legacy.ErrorRatePerEndpoint.reqCount m !! ep /\
           Legacy.ErrorRatePerEndpoint.errorCount m' !! ep = None
       end) /\
    exists vm' m'', Legacy.ErrorRatePerEndpoint.ValueMap m' = Some (vm', m'') /\
      map_Forall (fun _ v => v = 0%Q) vm'.
Proof.
  intros Hl. pose proof (LegacyRateProofs.legacy_rate_fold m) as R. cbv zeta in R.
  unfold Legacy.ErrorRatePerEndpoint.ValueMap at 1. rewrite Hl.
  destruct (map_fold Legacy.ErrorRatePerEndpoint.rate_entry (∅, 0, 0, m)
              (Legacy.ErrorRatePerEndpoint.errorCount m)) as [[[mt a] n] m'].
  cbn [fst snd] in R. destruct R as [Hl' R].
  do 2 eexists. split; [reflexivity|]. split.
  - intros ep. destruct (R ep) as [R1 R2].
    assert (Hne : metricName Legacy.ErrorRatePerEndpoint.base ep
                  <> overallName Legacy.ErrorRatePerEndpoint.base)
      by apply LegacyRateProofs.legacy_err_metric_ne_overall.
    destruct (Legacy.ErrorRatePerEndpoint.errorCount m !! ep) as [e|] eqn:E.
    + destruct (R2 e eq_refl) as (V & Hr & He). split; [|split; assumption].
      destruct (0 <? n); rewrite !lookup_insert_ne by congruence; rewrite V;
        unfold float32_of_int; f_equal;
        destruct (map_get (Legacy.ErrorRatePerEndpoint.reqCount m) ep <=? 0) eqn:Ez.
      all: try (apply Z.leb_le in Ez; assert (Hq : Qle_bool (inject_Z
                  (map_get (Legacy.ErrorRatePerEndpoint.reqCount m) ep)) 0 = true)
                  by (apply Qle_bool_iff; unfold Qle; simpl; lia); now rewrite Hq).
      all: apply Z.leb_gt in Ez;
        destruct (Qle_bool (inject_Z (map_get (Legacy.ErrorRatePerEndpoint.reqCount m) ep)) 0)
          eqn:Hq; [apply Qle_bool_iff in Hq; unfold Qle in Hq; simpl in Hq; lia | reflexivity].
    + destruct (R1 eq_refl) as (V & Hr & He). split; [|split; assumption].
      destruct (0 <? n); rewrite !lookup_insert_ne by congruence; exact V.
  - apply LegacyRateProofs.zero_export; [now rewrite Hl'|].
    intros k x Hk. destruct (R k) as [R1 R2].
    destruct (Legacy.ErrorRatePerEndpoint.errorCount m !! k) as [e|] eqn:E.
    + destruct (R2 e eq_refl) as (_ & Hr & _). unfold map_get. now rewrite Hr.
    + destruct (R1 eq_refl) as (_ & _ & He). congruence.
Qed.

Lemma legacy_error_rate_export_witness :
  Legacy.ErrorRatePerEndpoint.locked Legacy.ErrorRatePerEndpoint.New = false /\
  exists vm m',
    Legacy.ErrorRatePerEndpoint.ValueMap Legacy.ErrorRatePerEndpoint.New = Some (vm, m').
Proof.
  split; [reflexivity|].
  destruct (legacy_error_rate_export Legacy.ErrorRatePerEndpoint.New eq_refl)
    as (vm & m' & Hv & _).
  exists vm, m'. exact Hv.
Defined.

(** X12: in the earlier error-rate metric, an Update whose bag has no integer
    status code panics on the type assertion with the mutex held: it
    returns no error value, and afterwards every export and every Update
    with a well-formed endpoint attribute blocks forever. *)
Theorem legacy_error_rate_missing_status_blocks (p : params) (m : Legacy.ErrorRatePerEndpoint.t)
    (ep : string) :
  Legacy.ErrorRatePerEndpoint.locked m = false ->
  endpointName p = Some ep ->
  (forall code, p !! "statusCode" <> Some (VInt code)) ->
  exists m', Legacy.ErrorRatePerEndpoint.Update p m = Panic m' /\
    Legacy.ErrorRatePerEndpoint.ValueMap m' = None /\
    forall p', is_Some (endpointName p') -> Legacy.ErrorRatePerEndpoint.Update p' m' = Deadlock.
Proof.
  intros Hl Hep Hs. unfold Legacy.ErrorRatePerEndpoint.Update at 1. rewrite Hep, Hl.
  assert (Hp : Legacy.ErrorRatePerEndpoint.Update p m =
               Panic {| Legacy.ErrorRatePerEndpoint.reqCount := Legacy.ErrorRatePerEndpoint.reqCount m;
                        Legacy.ErrorRatePerEndpoint.errorCount := Legacy.ErrorRatePerEndpoint.errorCount m;
                        Legacy.ErrorRatePerEndpoint.locked := true |}).
  { unfold Legacy.ErrorRatePerEndpoint.Update. rewrite Hep, Hl.
    destruct (p !! "statusCode") as [[|code|]|] eqn:E; try reflexivity.
    exfalso. exact (Hs code eq_refl). }
  unfold Legacy.ErrorRatePerEndpoint.Update in Hp. rewrite Hep, Hl in Hp. rewrite Hp.
  eexists. split; [reflexivity|]. split; [reflexivity|].
  intros p' [ep' Hep']. unfold Legacy.ErrorRatePerEndpoint.Update. now rewrite Hep'.
Qed.

Lemma legacy_error_rate_missing_status_blocks_witness :
  exists m', Legacy.ErrorRatePerEndpoint.Update (bag_ep "log") Legacy.ErrorRatePerEndpoint.New
             = Panic m' /\ Legacy.ErrorRatePerEndpoint.ValueMap m' = None.
Proof.
  destruct (legacy_error_rate_missing_status_blocks (bag_ep "log") Legacy.ErrorRatePerEndpoint.New
              "log" eq_refl eq_refl ltac:(intros code; discriminate)) as (m' & Hu & Hv & _).
  exists m'. split; assumption.
Defined.
